(** * Other Us backend (src/backend/main.py): authentication and identity core

    A shallow embedding of the FastAPI backend: the Redis helpers, the
    password hasher, the token service, the session guard and the
    register / login / OAuth / profile endpoints, followed by the properties
    of the specification that were checked against them.

    Modelling choices:
    - Python values are the scalars of [value]; a [dict] is a finite map
      from strings to values; exceptions are the constructors of [exn].
    - A Python [str] is the string of its UTF-8 bytes. Concatenation,
      comparison, [split("@")] and the substring test are the same on bytes
      and on code points. The methods that consult the Unicode character
      database ([str.lower], [str.strip], [len], [int] of a string) are
      fields of [Platform]; of [str.lower] two laws are used: lowercasing
      twice is lowercasing once, and only the empty string lowercases to
      the empty string.
    - Handlers run in a state-and-exception monad over a [World]: the Redis
      store, the clock (milliseconds), the OAuth providers as a function
      from requests to responses, and the log of requests sent to them.
      Random draws ([uuid4], [secrets.token_urlsafe], [bcrypt.gensalt]) are
      arguments of the handler that draws them. Handlers run one after
      another, each at one instant of the clock.
    - The libraries the backend calls are modelled from their behaviour:
      python-jose ([jwt.encode] / [jwt.decode] with its default options),
      bcrypt, FastAPI's [OAuth2PasswordBearer] and Redis key expiry. The
      keyed signature and the bcrypt hash are fields of [Platform], with no
      property assumed.
    - A token string is seen through its parse ([token]). *)

From stdpp Require Import gmap strings list fin_maps pretty.
From Stdlib Require Import ZArith Ascii String.

#[local] Open Scope string_scope.
#[local] Open Scope Z_scope.

(** ** Python values, dictionaries and exceptions *)

(** The scalar Python values that occur in the records, claims and provider
    payloads handled by the backend. [VDatetime] carries milliseconds since
    the epoch. *)
Inductive value :=
| VNone
| VBool (b : bool)
| VInt (z : Z)
| VStr (s : string)
| VDatetime (ms : Z).

#[global] Instance value_eq_dec : EqDecision value.
Proof. solve_decision. Defined.

(** A Python [dict] with string keys. *)
Abbreviation dict := (gmap string value).

(** The exceptions the backend raises or lets through; all of them derive
    from Python's [Exception]. [ExpiredSignatureError] and [JWTClaimsError]
    are subclasses of [JWTError] (python-jose). *)
Inductive exn :=
| HTTPException (status_code : Z) (detail : string) (headers : list (string * string))
| JWTError
| ExpiredSignatureError
| JWTClaimsError
| KeyError (key : string)
| AttributeError
| TypeError
| ValueError.

#[global] Instance exn_eq_dec : EqDecision exn.
Proof. solve_decision. Defined.

(** [isinstance(e, JWTError)]. *)
Definition is_JWTError (e : exn) : bool :=
  match e with
  | JWTError | ExpiredSignatureError | JWTClaimsError => true
  | _ => false
  end.

(** The result of running Python code: a value or a raised exception. *)
Inductive outcome (A : Type) :=
| Ok (a : A)
| Raise (e : exn).
Arguments Ok {A} a.
Arguments Raise {A} e.

#[global] Instance outcome_ret : MRet outcome := @Ok.
#[global] Instance outcome_bind : MBind outcome := λ A B f m,
  match m with
  | Ok a => f a
  | Raise e => Raise e
  end.

(** Python truthiness ([bool(v)], [if v], [not v], [a or b]). *)
Definition truthy (v : value) : bool :=
  match v with
  | VNone => false
  | VBool b => b
  | VInt z => negb (Z.eqb z 0)
  | VStr s => negb (String.eqb s "")
  | VDatetime _ => true
  end.

Definition py_or (a b : value) : value := if truthy a then a else b.

(** [d.get(k)] and [d.get(k, default)]. *)
Definition get (d : dict) (k : string) : value := default VNone (d !! k).
Definition get_or (d : dict) (k : string) (dflt : value) : value := default dflt (d !! k).

(** [d[k]]. *)
Definition getitem (d : dict) (k : string) : outcome value :=
  match d !! k with
  | Some v => Ok v
  | None => Raise (KeyError k)
  end.

(** Python [==] on these values: [True == 1] and [False == 0]. *)
Definition as_int (v : value) : option Z :=
  match v with
  | VBool b => Some (Z.b2z b)
  | VInt z => Some z
  | _ => None
  end.

Definition py_eq (a b : value) : bool :=
  match as_int a, as_int b with
  | Some x, Some y => Z.eqb x y
  | None, None => bool_decide (a = b)
  | _, _ => false
  end.

(** [str(v)], as used by f-strings. *)
Definition str (v : value) : string :=
  match v with
  | VNone => "None"
  | VBool true => "True"
  | VBool false => "False"
  | VInt z => pretty z
  | VStr s => s
  | VDatetime ms => pretty ms
  end.

(** ** Strings *)

(** [s.split("@")[0]]. *)
Fixpoint before_at (s : string) : string :=
  match s with
  | EmptyString => EmptyString
  | String c r => if Ascii.eqb c "@"%char then EmptyString else String c (before_at r)
  end.

(** [needle in hay]. *)
Fixpoint contains (needle hay : string) : bool :=
  String.prefix needle hay ||
  match hay with
  | EmptyString => false
  | String _ r => contains needle r
  end.

(** [sep.join(parts)]. *)
Fixpoint join (sep : string) (parts : list string) : string :=
  match parts with
  | [] => ""
  | [p] => p
  | p :: rest => p +:+ sep +:+ join sep rest
  end.

(** ** Environment

    Configuration read from the process environment and the library
    primitives the backend relies on: the keyed signature of python-jose
    (HMAC over the signing input), bcrypt's [hashpw], [datetime.isoformat],
    [urllib.parse.urlencode], and the methods of [str] that depend on the
    Unicode character database. [ALGORITHM] is taken to be one that
    python-jose supports (the default is HS256). *)

(** The payload segment of a compact token: a JSON object of claims with
    scalar members, or bytes that do not decode to a JSON object. *)
Inductive payload :=
| PClaims (claims : dict)
| PRaw (raw : string).

#[global] Instance payload_eq_dec : EqDecision payload.
Proof. solve_decision. Defined.

Class Platform := {
  SECRET_KEY : string;
  ALGORITHM : string;
  ACCESS_TOKEN_EXPIRE_MINUTES : Z;
  BASE_URL : string;
  GOOGLE_CLIENT_ID : string;
  GOOGLE_REDIRECT_URI : string;
  GITHUB_CLIENT_ID : string;
  GITHUB_REDIRECT_URI : string;
  (** [sign alg key (header_alg, payload)]: signature of the signing input. *)
  sign : string → string → string * payload → string;
  (** [bcrypt.hashpw(password, salt)]; raises [ValueError] on a malformed
      salt or hash prefix. *)
  hashpw : string → string → outcome string;
  isoformat : Z → string;
  urlencode : list (string * string) → string;
  (** [s.lower()], [s.strip()] and [len(s)] (a count of code points). *)
  lower : string → string;
  strip : string → string;
  len : string → nat;
  (** [int(s)] on a [str]; [None] stands for [ValueError]. *)
  int_of_str : string → option Z;
  lower_idem : ∀ s, lower (lower s) = lower s;
  lower_empty : ∀ s, lower s = "" → s = "";
}.

Section Text.
Context `{Platform}.

(** [v.lower()] on a value: only [str] has the method. *)
Definition value_lower (v : value) : outcome string :=
  match v with
  | VStr s => Ok (lower s)
  | _ => Raise AttributeError
  end.

(** [int(v)] as python-jose applies it to a time claim; a [ValueError] is
    turned into [JWTClaimsError] by the caller, a [TypeError] is not. *)
Definition py_int (v : value) : outcome Z :=
  match v with
  | VInt z => Ok z
  | VBool b => Ok (Z.b2z b)
  | VStr s =>
      match int_of_str s with
      | Some z => Ok z
      | None => Raise ValueError
      end
  | VNone | VDatetime _ => Raise TypeError
  end.
End Text.

(** ** Token service (python-jose) *)

(** A bearer token string, seen through its compact serialization: three
    base64url segments that decode to a header naming the algorithm, a
    payload and a signature; [Opaque] is any string that does not split and
    decode that way. The library reads the payload only once the signature
    has been verified. *)
Record jws := {
  jws_alg : string;
  jws_payload : payload;
  jws_signature : string;
}.

Inductive token :=
| Compact (j : jws)
| Opaque (s : string).

(** [calendar.timegm(dt.utctimetuple())]: whole seconds since the epoch. *)
Definition timegm (ms : Z) : Z := ms / 1000.

Section TokenService.
Context `{Platform}.

(** [jwt.encode]: [datetime] values of the time claims [exp], [iat] and
    [nbf] become whole seconds, then the claims are signed. *)
Definition intdate (k : string) (claims : dict) : dict :=
  match claims !! k with
  | Some (VDatetime ms) => <[k := VInt (timegm ms)]> claims
  | _ => claims
  end.

Definition jwt_encode (claims : dict) (key alg : string) : token :=
  let claims' := intdate "nbf" (intdate "iat" (intdate "exp" claims)) in
  Compact {| jws_alg := alg;
             jws_payload := PClaims claims';
             jws_signature := sign alg key (alg, PClaims claims') |}.

(** [jws.verify]: structure, allowed algorithm, signature. Every failure
    surfaces from [jwt.decode] as [JWTError]. *)
Definition jws_verify (t : token) (key : string) (algorithms : list string)
  : outcome payload :=
  match t with
  | Opaque _ => Raise JWTError
  | Compact j =>
      if bool_decide (jws_alg j ∈ algorithms) then
        if String.eqb (sign (jws_alg j) key (jws_alg j, jws_payload j))
                      (jws_signature j)
        then Ok (jws_payload j)
        else Raise JWTError
      else Raise JWTError
  end.

(** A time claim read with [int(claims[k])]: absent, or an integer. *)
Definition claim_int (claims : dict) (k : string) : outcome (option Z) :=
  match claims !! k with
  | None => Ok None
  | Some v =>
      match py_int v with
      | Ok z => Ok (Some z)
      | Raise ValueError => Raise JWTClaimsError
      | Raise e => Raise e
      end
  end.

(** [_validate_iat]: an issued-at claim, when present, must convert to an
    integer. *)
Definition validate_iat (claims : dict) : outcome unit :=
  _ ← claim_int claims "iat"; Ok ().

(** [_validate_nbf]: the token is not yet valid when [nbf > now], both in
    whole seconds. *)
Definition validate_nbf (claims : dict) (now : Z) : outcome unit :=
  nbf ← claim_int claims "nbf";
  match nbf with
  | Some nbf => if (timegm now <? nbf)%Z then Raise JWTClaimsError else Ok ()
  | None => Ok ()
  end.

(** [_validate_exp]: the token is expired when [exp < now], both in whole
    seconds. *)
Definition validate_exp (claims : dict) (now : Z) : outcome unit :=
  exp ← claim_int claims "exp";
  match exp with
  | Some exp => if (exp <? timegm now)%Z then Raise ExpiredSignatureError else Ok ()
  | None => Ok ()
  end.

(** [_validate_aud] with [audience=None]: an audience claim, when present,
    never contains [None]. *)
Definition validate_aud (claims : dict) : outcome unit :=
  match claims !! "aud" with
  | None => Ok ()
  | Some _ => Raise JWTClaimsError
  end.

(** [_validate_sub]: a subject, when present, must be a string. *)
Definition validate_sub (claims : dict) : outcome unit :=
  match claims !! "sub" with
  | None | Some (VStr _) => Ok ()
  | Some _ => Raise JWTClaimsError
  end.

(** [_validate_jti]: a token id, when present, must be a string. *)
Definition validate_jti (claims : dict) : outcome unit :=
  match claims !! "jti" with
  | None | Some (VStr _) => Ok ()
  | Some _ => Raise JWTClaimsError
  end.

(** [_validate_at_hash] with [access_token=None]: an [at_hash] claim has
    nothing to be compared with. *)
Definition validate_at_hash (claims : dict) : outcome unit :=
  match claims !! "at_hash" with
  | None => Ok ()
  | Some _ => Raise JWTClaimsError
  end.

(** [_validate_claims] under the default options, in the order of the
    library; [_validate_iss] does nothing since no issuer is passed. *)
Definition validate_claims (claims : dict) (now : Z) : outcome unit :=
  _ ← validate_iat claims;
  _ ← validate_nbf claims now;
  _ ← validate_exp claims now;
  _ ← validate_aud claims;
  _ ← validate_sub claims;
  _ ← validate_jti claims;
  validate_at_hash claims.

(** [jwt.decode(token, key, algorithms=...)] at clock [now]. *)
Definition jwt_decode (t : token) (key : string) (algorithms : list string)
    (now : Z) : outcome dict :=
  p ← jws_verify t key algorithms;
  match p with
  | PRaw _ => Raise JWTError
  | PClaims claims =>
      _ ← validate_claims claims now;
      Ok claims
  end.

(** [timedelta(minutes=m)] in milliseconds. *)
Definition minutes (m : Z) : Z := m * 60000.

(** [create_access_token(data, expires_delta)] at clock [now];
    [expires_delta] is [None] or a duration in milliseconds, and a zero
    duration is falsy. *)
Definition create_access_token (data : dict) (expires_delta : option Z)
    (now : Z) : token :=
  let delta :=
    match expires_delta with
    | Some d => if Z.eqb d 0 then minutes ACCESS_TOKEN_EXPIRE_MINUTES else d
    | None => minutes ACCESS_TOKEN_EXPIRE_MINUTES
    end in
  let expire := now + delta in
  let to_encode := <["exp" := VDatetime expire]> data in
  jwt_encode to_encode SECRET_KEY ALGORITHM.

(** [verify_token(token)] at clock [now]: [except JWTError] catches the
    class and its subclasses, anything else propagates. *)
Definition verify_token (t : token) (now : Z) : outcome value :=
  match jwt_decode t SECRET_KEY [ALGORITHM] now with
  | Ok payload => Ok (get payload "sub")
  | Raise e => if is_JWTError e then Ok VNone else Raise e
  end.

(** ** Password hasher (bcrypt) *)

(** [bcrypt.checkpw(password, hashed)]: re-hash with the stored hash as
    salt and compare. *)
Definition checkpw (password hashed : string) : outcome bool :=
  ret ← hashpw password hashed;
  Ok (String.eqb ret hashed).

(** [hash_password(plain)] with the salt drawn by [bcrypt.gensalt()]. *)
Definition hash_password (plain salt : string) : outcome string :=
  hashpw plain salt.

(** [hashed.encode("utf-8")]: only a [str] has the method. *)
Definition encode_utf8 (v : value) : outcome string :=
  match v with
  | VStr s => Ok s
  | _ => Raise AttributeError
  end.

(** [verify_password(plain, hashed)]: the whole body sits in the [try], and
    [except Exception] catches every exception of [exn]. *)
Definition verify_password (plain : string) (hashed : value) : outcome bool :=
  match h ← encode_utf8 hashed; checkpw plain h with
  | Ok b => Ok b
  | Raise _ => Ok false
  end.
End TokenService.

(** ** The world: Redis, the clock and the OAuth providers *)

(** Redis keys are namespaced by prefix ([user:], [email_to_id:],
    [oauth_state:]) plus the set [users:all]; no two prefixes overlap, so the
    keyspace is one map per prefix. User records are stored as JSON and read
    back with [json.loads]. An [oauth_state] entry carries the instant (ms)
    at which its TTL runs out. *)
Record Redis := mkRedis {
  user_key : gmap string dict;
  email_to_id_key : gmap string string;
  oauth_state_key : gmap string (string * Z);
  users_all : gset string;
}.

(** JSON bodies returned by the providers. *)
Inductive item :=
| IObject (d : dict)
| IScalar (v : value).

Inductive json :=
| JObject (d : dict)
| JArray (l : list item)
| JScalar (v : value).

Record Response := mkResponse {
  resp_status_code : Z;
  resp_json : json;
}.

(** Outbound requests of the two callbacks; the string is the authorization
    code, respectively the [Authorization] header. *)
Inductive Request :=
| GoogleToken (code : string)
| GoogleUserinfo (authorization : string)
| GithubToken (code : string)
| GithubUser (authorization : string)
| GithubEmails (authorization : string).

Record World := mkWorld {
  redis : Redis;
  clock : Z;
  provider : Request → Response;
  outbound : list Request;
}.

(** Handlers run in a state-and-exception monad over the world. A handler is
    taken to run at one instant of the clock. *)
Definition M (A : Type) : Type := World → outcome A * World.

#[global] Instance M_ret : MRet M := λ A a w, (Ok a, w).
#[global] Instance M_bind : MBind M := λ A B f m w,
  match m w with
  | (Ok a, w') => f a w'
  | (Raise e, w') => (Raise e, w')
  end.

Definition raise {A} (e : exn) : M A := λ w, (Raise e, w).
Definition lift {A} (o : outcome A) : M A := λ w, (o, w).
Definition gets {A} (f : World → A) : M A := λ w, (Ok (f w), w).
Definition modify_redis (f : Redis → Redis) : M unit := λ w,
  (Ok (), mkWorld (f (redis w)) (clock w) (provider w) (outbound w)).

(** [await client.post(...)] / [await client.get(...)]. *)
Definition http (rq : Request) : M Response := λ w,
  (Ok (provider w rq),
   mkWorld (redis w) (clock w) (provider w) (outbound w ++ [rq])).

(** [body.get(k, default)] and [body[k]] on a decoded JSON body. *)
Definition json_get_or (j : json) (k : string) (dflt : value) : outcome value :=
  match j with
  | JObject d => Ok (get_or d k dflt)
  | _ => Raise AttributeError
  end.

Definition json_getitem (j : json) (k : string) : outcome value :=
  match j with
  | JObject d => getitem d k
  | _ => Raise TypeError
  end.

(** [for e in body]: a list yields its elements, a dict its keys, a string
    its characters; other scalars are not iterable. *)
Definition chars (s : string) : list item :=
  (λ c, IScalar (VStr (String c EmptyString))) <$> list_ascii_of_string s.

Definition json_iter (j : json) : outcome (list item) :=
  match j with
  | JArray l => Ok l
  | JObject d => Ok ((λ kv, IScalar (VStr kv.1)) <$> map_to_list d)
  | JScalar (VStr s) => Ok (chars s)
  | JScalar _ => Raise TypeError
  end.

(** *** Redis commands *)

Definition set_user (user_id : string) (data : dict) : M unit :=
  modify_redis (λ r, mkRedis (<[user_id := data]> (user_key r))
                             (email_to_id_key r) (oauth_state_key r) (users_all r)).

Definition set_email_to_id (email user_id : string) : M unit :=
  modify_redis (λ r, mkRedis (user_key r) (<[email := user_id]> (email_to_id_key r))
                             (oauth_state_key r) (users_all r)).

Definition delete_user (user_id : string) : M unit :=
  modify_redis (λ r, mkRedis (delete user_id (user_key r))
                             (email_to_id_key r) (oauth_state_key r) (users_all r)).

Definition delete_email_to_id (email : string) : M unit :=
  modify_redis (λ r, mkRedis (user_key r) (delete email (email_to_id_key r))
                             (oauth_state_key r) (users_all r)).

Definition sadd_users_all (user_id : string) : M unit :=
  modify_redis (λ r, mkRedis (user_key r) (email_to_id_key r) (oauth_state_key r)
                             ({[user_id]} ∪ users_all r)).

Definition srem_users_all (user_id : string) : M unit :=
  modify_redis (λ r, mkRedis (user_key r) (email_to_id_key r) (oauth_state_key r)
                             (users_all r ∖ {[user_id]})).

(** [r.setex(f"oauth_state:{state}", seconds, v)]. *)
Definition setex_oauth_state (state : string) (seconds : Z) (v : string) : M unit :=
  λ w, modify_redis (λ r, mkRedis (user_key r) (email_to_id_key r)
                        (<[state := (v, clock w + seconds * 1000)]> (oauth_state_key r))
                        (users_all r)) w.

(** [r.get(f"oauth_state:{state}")]: a key is expired once the clock is past
    its expiry instant. *)
Definition live_oauth_state (r : Redis) (now : Z) (state : string) : option string :=
  match oauth_state_key r !! state with
  | Some (v, expires_at) => if (expires_at <? now)%Z then None else Some v
  | None => None
  end.

Definition get_oauth_state (state : string) : M (option string) :=
  gets (λ w, live_oauth_state (redis w) (clock w) state).

Definition delete_oauth_state (state : string) : M unit :=
  modify_redis (λ r, mkRedis (user_key r) (email_to_id_key r)
                             (delete state (oauth_state_key r)) (users_all r)).

(** Truthiness of [Optional[str]] and [Optional[dict]]. *)
Definition str_truthy (o : option string) : bool :=
  match o with
  | Some s => negb (String.eqb s "")
  | None => false
  end.

Definition dict_truthy (o : option dict) : bool :=
  match o with
  | Some d => negb (bool_decide (d = ∅))
  | None => false
  end.

(** *** Redis helpers of the backend *)

Section Store.
Context `{Platform}.

(** [redis_set_user(r, user_id, data)]. *)
Definition redis_set_user (user_id : value) (data : dict) : M unit :=
  _ ← set_user (str user_id) data;
  email ← lift (e ← getitem data "email"; value_lower e);
  set_email_to_id email (str user_id).

(** [redis_get_user(r, user_id)]. *)
Definition redis_get_user (user_id : string) : M (option dict) :=
  gets (λ w, user_key (redis w) !! user_id).

(** [redis_get_user_by_email(r, email)]. *)
Definition redis_get_user_by_email (email : string) : M (option dict) :=
  uid ← gets (λ w, email_to_id_key (redis w) !! lower email);
  if negb (str_truthy uid) then mret None
  else redis_get_user (default "" uid).

(** [redis_delete_user(r, user_id)]. *)
Definition redis_delete_user (user_id : value) : M unit :=
  user ← redis_get_user (str user_id);
  _ ← (if dict_truthy user then
         email ← lift (e ← getitem (default ∅ user) "email"; value_lower e);
         delete_email_to_id email
       else mret ());
  _ ← delete_user (str user_id);
  srem_users_all (str user_id).

(** [redis_add_to_index(r, user_id)]. *)
Definition redis_add_to_index (user_id : string) : M unit :=
  sadd_users_all user_id.

(** [public_user_view(user)]. *)
Definition public_user_view (user : dict) : dict :=
  list_to_map [
    ("user_id", get user "user_id");
    ("display_name", get_or user "display_name" (VStr ""));
    ("bio", get_or user "bio" (VStr ""));
    ("interests", get_or user "interests" (VStr ""));
    ("avatar_url", get_or user "avatar_url" (VStr ""));
    ("location", get_or user "location" (VStr ""));
    ("website", get_or user "website" (VStr ""));
    ("provider", get_or user "provider" (VStr "email"));
    ("created_at", get_or user "created_at" (VStr ""))
  ].

(** [" ".join([...])]: every part must be a [str]. *)
Fixpoint strs (vs : list value) : outcome (list string) :=
  match vs with
  | [] => Ok []
  | VStr s :: rest => r ← strs rest; Ok (s :: r)
  | _ :: _ => Raise TypeError
  end.

Definition searchable (user : dict) : outcome string :=
  parts ← strs [get_or user "display_name" (VStr "");
                get_or user "email" (VStr "");
                get_or user "bio" (VStr "");
                get_or user "interests" (VStr "");
                get_or user "location" (VStr "")];
  Ok (lower (join " " parts)).

(** [redis_search_users(r, query)]: the loop over [r.smembers("users:all")]. *)
Fixpoint search_loop (r : Redis) (query_lower : string) (all_ids : list string)
    (results : list dict) : outcome (list dict) :=
  match all_ids with
  | [] => Ok results
  | uid :: rest =>
      let user := user_key r !! uid in
      if dict_truthy user then
        s ← searchable (default ∅ user);
        if contains query_lower s
        then search_loop r query_lower rest (results ++ [public_user_view (default ∅ user)])
        else search_loop r query_lower rest results
      else search_loop r query_lower rest results
  end.

Definition redis_search_users (query : string) : M (list dict) :=
  λ w, lift (search_loop (redis w) (lower query) (elements (users_all (redis w))) []) w.
End Store.

(** ** Request and response models *)

Record UserCreate := mkUserCreate {
  uc_email : string;
  uc_password : string;
  uc_display_name : string;
  uc_bio : option string;
  uc_interests : option string;
}.

Record UserUpdate := mkUserUpdate {
  uu_display_name : option string;
  uu_bio : option string;
  uu_interests : option string;
  uu_avatar_url : option string;
  uu_location : option string;
  uu_website : option string;
}.

(** What an endpoint sends back on success. *)
Inductive response :=
| TokenResponse (access_token : token) (token_type user_id display_name email : string)
| RedirectResponse (origin : string) (tok : token) (provider_name : string)
| AuthUrl (auth_url state : string)
| Profile (body : dict)
| SearchResults (results : list dict) (count : nat)
| Message (message : string).

(** A pydantic [str] field accepts only a [str]; [ValidationError] is a
    [ValueError]. *)
Definition as_str (v : value) : outcome string :=
  match v with
  | VStr s => Ok s
  | _ => Raise ValueError
  end.

Definition challenge : list (string * string) := [("WWW-Authenticate", "Bearer")].

Section Endpoints.
Context `{Platform}.

(** ** Session guard *)

(** FastAPI's [OAuth2PasswordBearer]: the [Authorization] header, absent or
    split into scheme and parameter. *)
Definition oauth2_scheme (authorization : option (string * token)) : outcome token :=
  match authorization with
  | Some (scheme, param) =>
      if String.eqb (lower scheme) "bearer" then Ok param
      else Raise (HTTPException 401 "Not authenticated" challenge)
  | None => Raise (HTTPException 401 "Not authenticated" challenge)
  end.

(** [get_current_user(token, r)], with the [oauth2_scheme] dependency that
    feeds it. *)
Definition get_current_user (authorization : option (string * token)) : M dict :=
  t ← lift (oauth2_scheme authorization);
  user_id ← (λ w, lift (verify_token t (clock w)) w);
  if negb (truthy user_id) then
    raise (HTTPException 401 "Invalid or expired token" challenge)
  else
    user ← redis_get_user (str user_id);
    if negb (dict_truthy user) then
      raise (HTTPException 404 "User not found" [])
    else mret (default ∅ user).

(** ** Auth routes *)

Definition new_user (user_id email password_hash display_name bio interests
    avatar_url location website prov oauth_id now : value) : dict :=
  list_to_map [
    ("user_id", user_id);
    ("email", email);
    ("password_hash", password_hash);
    ("display_name", display_name);
    ("bio", bio);
    ("interests", interests);
    ("avatar_url", avatar_url);
    ("location", location);
    ("website", website);
    ("provider", prov);
    ("oauth_id", oauth_id);
    ("created_at", now);
    ("updated_at", now)
  ].

(** [register(payload, r)]; [user_id] is the [uuid4] drawn by the call and
    [salt] the salt drawn by [bcrypt.gensalt()]. *)
Definition register (payload : UserCreate) (user_id salt : string) : M response :=
  existing ← redis_get_user_by_email (uc_email payload);
  if dict_truthy existing then
    raise (HTTPException 400 "Email already registered" [])
  else
    hashed_pw ← lift (hash_password (uc_password payload) salt);
    now ← gets (λ w, isoformat (clock w));
    let user_data :=
      new_user (VStr user_id) (VStr (lower (uc_email payload))) (VStr hashed_pw)
        (VStr (uc_display_name payload))
        (VStr (default "" (uc_bio payload)))
        (VStr (default "" (uc_interests payload)))
        (VStr "") (VStr "") (VStr "") (VStr "email") (VStr "") (VStr now) in
    _ ← redis_set_user (VStr user_id) user_data;
    _ ← redis_add_to_index user_id;
    tok ← gets (λ w, create_access_token {["sub" := VStr user_id]} None (clock w));
    mret (TokenResponse tok "bearer" user_id (uc_display_name payload)
            (lower (uc_email payload))).

(** [login(form_data, r)]. *)
Definition login (username password : string) : M response :=
  user ← redis_get_user_by_email username;
  pw_ok ← (if dict_truthy user then
             lift (verify_password password
                     (get_or (default ∅ user) "password_hash" (VStr "")))
           else mret false);
  if negb (dict_truthy user) || negb pw_ok then
    raise (HTTPException 401 "Incorrect email or password" challenge)
  else
    let user := default ∅ user in
    sub ← lift (getitem user "user_id");
    tok ← gets (λ w, create_access_token {["sub" := sub]} None (clock w));
    uid ← lift (getitem user "user_id");
    name ← lift (getitem user "display_name");
    email ← lift (getitem user "email");
    '(uid, name, email) ← lift (u ← as_str uid; n ← as_str name; e ← as_str email;
                                Ok (u, n, e));
    mret (TokenResponse tok "bearer" uid name email).

(** ** Google OAuth *)

(** [google_login(r)]; [state] is the nonce drawn by
    [secrets.token_urlsafe(32)]. *)
Definition google_login (state : string) : M response :=
  _ ← setex_oauth_state state 600 "google";
  let params := [("client_id", GOOGLE_CLIENT_ID);
                 ("redirect_uri", GOOGLE_REDIRECT_URI);
                 ("response_type", "code");
                 ("scope", "openid email profile");
                 ("state", state);
                 ("access_type", "offline")] in
  mret (AuthUrl ("https://accounts.google.com/o/oauth2/v2/auth?" +:+ urlencode params)
                state).

(** The callbacks are long; each is cut into the phases of the source, in
    order: state check, provider calls and normalization, find-or-create,
    token and redirect. *)

(** [google_callback], from [async with httpx.AsyncClient()] to
    [avatar_url = ...]: code exchange, userinfo, normalization. The result
    is [(email, oauth_id, display_name, avatar_url)]. *)
Definition google_fetch_identity (code : string)
  : M (string * value * value * value) :=
  token_resp ← http (GoogleToken code);
  if negb (Z.eqb (resp_status_code token_resp) 200) then
    raise (HTTPException 400 "Failed to exchange Google code" [])
  else
    let token_data := resp_json token_resp in
    access_token ← lift (json_getitem token_data "access_token");
    userinfo_resp ← http (GoogleUserinfo ("Bearer " +:+ str access_token));
    if negb (Z.eqb (resp_status_code userinfo_resp) 200) then
      raise (HTTPException 400 "Failed to get Google user info" [])
    else
      let guser := resp_json userinfo_resp in
      email ← lift (e ← json_get_or guser "email" (VStr ""); value_lower e);
      oauth_id ← lift (json_get_or guser "sub" (VStr ""));
      display_name ← lift (json_get_or guser "name" (VStr (before_at email)));
      avatar_url ← lift (json_get_or guser "picture" (VStr ""));
      mret (email, oauth_id, display_name, avatar_url).

(** [google_callback], "Find or create user"; [new_id] is the [uuid4] drawn
    when a record is created. *)
Definition google_link_account (email : string)
    (oauth_id display_name avatar_url : value) (new_id : string) : M dict :=
  found ← redis_get_user_by_email email;
  if negb (dict_truthy found) then
    now ← gets (λ w, isoformat (clock w));
    let user :=
      new_user (VStr new_id) (VStr email) (VStr "") display_name
        (VStr "") (VStr "") avatar_url (VStr "") (VStr "")
        (VStr "google") oauth_id (VStr now) in
    _ ← redis_set_user (VStr new_id) user;
    _ ← redis_add_to_index new_id;
    mret user
  else
    let user := default ∅ found in
    if truthy avatar_url && negb (py_eq (get user "avatar_url") avatar_url) then
      now ← gets (λ w, isoformat (clock w));
      let user := <["avatar_url" := avatar_url]> user in
      let user := <["updated_at" := VStr now]> user in
      uid ← lift (getitem user "user_id");
      _ ← redis_set_user uid user;
      mret user
    else mret user.

(** [google_callback], everything after the state nonce has been deleted. *)
Definition google_authenticated (code new_id : string) : M response :=
  '(email, oauth_id, display_name, avatar_url) ← google_fetch_identity code;
  user ← google_link_account email oauth_id display_name avatar_url new_id;
  sub ← lift (getitem user "user_id");
  tok ← gets (λ w, create_access_token {["sub" := sub]} None (clock w));
  mret (RedirectResponse (BASE_URL +:+ ":8550/oauth_callback") tok "google").

(** [google_callback(code, state, r)]. *)
Definition google_callback (code state new_id : string) : M response :=
  stored ← get_oauth_state state;
  if negb (str_truthy stored) then
    raise (HTTPException 400 "Invalid OAuth state" [])
  else
    _ ← delete_oauth_state state;
    google_authenticated code new_id.

(** ** GitHub OAuth *)

Definition github_login (state : string) : M response :=
  _ ← setex_oauth_state state 600 "github";
  let params := [("client_id", GITHUB_CLIENT_ID);
                 ("redirect_uri", GITHUB_REDIRECT_URI);
                 ("scope", "user:email read:user");
                 ("state", state)] in
  mret (AuthUrl ("https://github.com/login/oauth/authorize?" +:+ urlencode params)
                state).

(** The [for e in emails] loop of [github_callback]: the lowercased email of
    the first dict flagged primary and verified, or the initial [""]. *)
Fixpoint primary_verified_email (emails : list item) : outcome string :=
  match emails with
  | [] => Ok ""
  | IObject e :: rest =>
      if truthy (get e "primary") && truthy (get e "verified") then
        v ← getitem e "email"; value_lower v
      else primary_verified_email rest
  | IScalar _ :: rest => primary_verified_email rest
  end.

(** Email resolution of [github_callback] (from "Find primary verified
    email" to the placeholder); [hex] is the [uuid4().hex] default. *)
Definition github_resolve_email (emails : list item) (gh_user : json)
    (hex : string) : outcome string :=
  email ← primary_verified_email emails;
  email ← (if String.eqb email "" then
             profile_email ← json_get_or gh_user "email" VNone;
             if truthy profile_email then
               v ← json_getitem gh_user "email"; value_lower v
             else Ok email
           else Ok email);
  if String.eqb email "" then
    id ← json_get_or gh_user "id" (VStr hex);
    Ok ("gh_" +:+ str id +:+ "@github.noemail")
  else Ok email.

(** The normalized identity produced by [github_callback] before the
    lookup. *)
Record github_identity := mkGithubIdentity {
  gi_email : string;
  gi_oauth_id : value;
  gi_display_name : value;
  gi_avatar_url : value;
  gi_bio : value;
  gi_location : value;
  gi_website : value;
}.

(** [github_callback], from [async with httpx.AsyncClient()] to
    [website = ...]; [hex] is the [uuid4().hex] default of the placeholder. *)
Definition github_fetch_identity (code hex : string) : M github_identity :=
  token_resp ← http (GithubToken code);
  if negb (Z.eqb (resp_status_code token_resp) 200) then
    raise (HTTPException 400 "Failed to exchange GitHub code" [])
  else
    let token_data := resp_json token_resp in
    access_token ← lift (json_get_or token_data "access_token" VNone);
    if negb (truthy access_token) then
      raise (HTTPException 400 "No access token from GitHub" [])
    else
      user_resp ← http (GithubUser ("Bearer " +:+ str access_token));
      let gh_user := resp_json user_resp in
      email_resp ← http (GithubEmails ("Bearer " +:+ str access_token));
      let emails :=
        if Z.eqb (resp_status_code email_resp) 200
        then resp_json email_resp else JArray [] in
      emails ← lift (json_iter emails);
      email ← lift (github_resolve_email emails gh_user hex);
      oauth_id ← lift (v ← json_get_or gh_user "id" (VStr ""); Ok (VStr (str v)));
      name ← lift (json_get_or gh_user "name" VNone);
      login_name ← lift (json_get_or gh_user "login" (VStr (before_at email)));
      let display_name := py_or name login_name in
      avatar_url ← lift (json_get_or gh_user "avatar_url" (VStr ""));
      bio ← lift (v ← json_get_or gh_user "bio" (VStr ""); Ok (py_or v (VStr "")));
      location ← lift (v ← json_get_or gh_user "location" (VStr "");
                       Ok (py_or v (VStr "")));
      website ← lift (v ← json_get_or gh_user "blog" (VStr ""); Ok (py_or v (VStr "")));
      mret (mkGithubIdentity email oauth_id display_name avatar_url bio location website).

(** [github_callback], from [user = redis_get_user_by_email(r, email)] to
    the end of the [else] branch. *)
Definition github_link_account (g : github_identity) (new_id : string) : M dict :=
  found ← redis_get_user_by_email (gi_email g);
  if negb (dict_truthy found) then
    now ← gets (λ w, isoformat (clock w));
    let user :=
      new_user (VStr new_id) (VStr (gi_email g)) (VStr "") (gi_display_name g)
        (gi_bio g) (VStr "") (gi_avatar_url g) (gi_location g) (gi_website g)
        (VStr "github") (gi_oauth_id g) (VStr now) in
    _ ← redis_set_user (VStr new_id) user;
    _ ← redis_add_to_index new_id;
    mret user
  else
    let user := default ∅ found in
    now ← gets (λ w, isoformat (clock w));
    let user := <["avatar_url" := gi_avatar_url g]> user in
    let user := <["updated_at" := VStr now]> user in
    uid ← lift (getitem user "user_id");
    _ ← redis_set_user uid user;
    mret user.

(** [github_callback], everything after the state nonce has been deleted;
    [hex] and [new_id] are the two [uuid4] values the call may draw. *)
Definition github_authenticated (code hex new_id : string) : M response :=
  g ← github_fetch_identity code hex;
  user ← github_link_account g new_id;
  sub ← lift (getitem user "user_id");
  tok ← gets (λ w, create_access_token {["sub" := sub]} None (clock w));
  mret (RedirectResponse (BASE_URL +:+ ":8550/oauth_callback") tok "github").

(** [github_callback(code, state, r)]. *)
Definition github_callback (code state hex new_id : string) : M response :=
  stored ← get_oauth_state state;
  if negb (str_truthy stored) then
    raise (HTTPException 400 "Invalid OAuth state" [])
  else
    _ ← delete_oauth_state state;
    github_authenticated code hex new_id.

(** ** User profile routes *)

(** [{k: v for k, v in d.items() if k != "password_hash"}]. *)
Definition without_password_hash (d : dict) : dict :=
  filter (λ kv, kv.1 ≠ "password_hash") d.

Definition get_my_profile (authorization : option (string * token)) : M response :=
  current_user ← get_current_user authorization;
  mret (Profile (without_password_hash current_user)).

(** [if payload.f is not None: updated[k] = payload.f]. *)
Definition set_if (k : string) (f : option string) (d : dict) : dict :=
  match f with
  | Some v => <[k := VStr v]> d
  | None => d
  end.

Definition update_my_profile (payload : UserUpdate)
    (authorization : option (string * token)) : M response :=
  current_user ← get_current_user authorization;
  let updated := current_user in
  let updated := set_if "display_name" (uu_display_name payload) updated in
  let updated := set_if "bio" (uu_bio payload) updated in
  let updated := set_if "interests" (uu_interests payload) updated in
  let updated := set_if "avatar_url" (uu_avatar_url payload) updated in
  let updated := set_if "location" (uu_location payload) updated in
  let updated := set_if "website" (uu_website payload) updated in
  now ← gets (λ w, isoformat (clock w));
  let updated := <["updated_at" := VStr now]> updated in
  uid ← lift (getitem current_user "user_id");
  _ ← redis_set_user uid updated;
  mret (Profile (without_password_hash updated)).

Definition delete_my_account (authorization : option (string * token)) : M response :=
  current_user ← get_current_user authorization;
  uid ← lift (getitem current_user "user_id");
  _ ← redis_delete_user uid;
  mret (Message "Account deleted successfully").

Definition get_user_profile (user_id : string)
    (authorization : option (string * token)) : M response :=
  current_user ← get_current_user authorization;
  user ← redis_get_user user_id;
  if negb (dict_truthy user) then
    raise (HTTPException 404 "User not found" [])
  else mret (Profile (public_user_view (default ∅ user))).

(** [[u for u in results if u["user_id"] != current_user["user_id"]]]. *)
Fixpoint exclude_self (results : list dict) (current_user : dict)
  : outcome (list dict) :=
  match results with
  | [] => Ok []
  | u :: rest =>
      a ← getitem u "user_id";
      b ← getitem current_user "user_id";
      r ← exclude_self rest current_user;
      Ok (if negb (py_eq a b) then u :: r else r)
  end.

Definition search_users (q : string)
    (authorization : option (string * token)) : M response :=
  current_user ← get_current_user authorization;
  if (len (strip q) <? 2)%nat then
    raise (HTTPException 400 "Query must be at least 2 characters" [])
  else
    results ← redis_search_users (strip q);
    results ← lift (exclude_self results current_user);
    mret (SearchResults results (List.length results)).

Definition health : M response :=
  mret (Profile (list_to_map [("status", VStr "ok"); ("service", VStr "Other Us API")])).
End Endpoints.

(** ** A reference configuration

    A concrete platform on which the definitions above evaluate: a keyed
    digest that spells out its inputs, a bcrypt stand-in that keeps the
    seven-character prefix of the salt and rejects anything that does not
    start with the bcrypt marker, and the methods of [str] as they act on
    ASCII text. *)

(** [str.lower()] on ASCII text. *)
Definition ascii_lower (c : ascii) : ascii :=
  let n := nat_of_ascii c in
  if ((65 <=? n) && (n <=? 90))%nat then ascii_of_nat (n + 32) else c.

Fixpoint demo_lower (s : string) : string :=
  match s with
  | EmptyString => EmptyString
  | String c r => String (ascii_lower c) (demo_lower r)
  end.

Definition demo_lower_idem (s : string) : demo_lower (demo_lower s) = demo_lower s.
Proof.
  induction s as [|c s IH]; simpl; [done|]. f_equal; [|done].
  destruct c as [[] [] [] [] [] [] [] []]; reflexivity.
Qed.

Definition demo_lower_empty (s : string) : demo_lower s = "" → s = "".
Proof. by destruct s. Qed.

(** [str.strip()] on ASCII text: whitespace is removed at both ends. *)
Definition is_space (c : ascii) : bool :=
  let n := nat_of_ascii c in
  ((n =? 32) || ((9 <=? n) && (n <=? 13)) || ((28 <=? n) && (n <=? 31)))%nat.

Fixpoint lstrip (s : string) : string :=
  match s with
  | String c r => if is_space c then lstrip r else s
  | EmptyString => EmptyString
  end.

Definition demo_strip (s : string) : string :=
  String.rev (lstrip (String.rev (lstrip s))).

(** [int(s)] on ASCII text: optional whitespace around an optional sign and
    decimal digits, which single underscores may separate. *)
Definition digit (c : ascii) : option Z :=
  let n := nat_of_ascii c in
  if ((48 <=? n) && (n <=? 57))%nat then Some (Z.of_nat (n - 48)) else None.

Fixpoint digits (s : string) (acc : Z) (after_digit : bool) : option Z :=
  match s with
  | EmptyString => if after_digit then Some acc else None
  | String c r =>
      if Ascii.eqb c "_"%char then
        if after_digit then digits r acc false else None
      else
        match digit c with
        | Some d => digits r (acc * 10 + d) true
        | None => None
        end
  end.

Definition demo_int_of_str (s : string) : option Z :=
  match demo_strip s with
  | String c r =>
      if Ascii.eqb c "-"%char then Z.opp <$> digits r 0 false
      else if Ascii.eqb c "+"%char then digits r 0 false
      else digits (String c r) 0 false
  | EmptyString => None
  end.

Definition demo_payload_repr (p : payload) : string :=
  match p with
  | PClaims c => str (get c "sub") +:+ "|" +:+ str (get c "exp")
  | PRaw s => s
  end.

Definition demo_sign (alg key : string) (input : string * payload) : string :=
  alg +:+ "|" +:+ key +:+ "|" +:+ input.1 +:+ "|" +:+ demo_payload_repr input.2.

Definition demo_hashpw (password salt : string) : outcome string :=
  if String.prefix "$2b$12$" salt
  then Ok (String.substring 0 7 salt +:+ password)
  else Raise ValueError.

Definition demo_urlencode (params : list (string * string)) : string :=
  join "&" ((λ kv, kv.1 +:+ "=" +:+ kv.2) <$> params).

Definition demo_platform : Platform := {|
  SECRET_KEY := "changeme";
  ALGORITHM := "HS256";
  ACCESS_TOKEN_EXPIRE_MINUTES := 30;
  BASE_URL := "http://localhost";
  GOOGLE_CLIENT_ID := "google-client";
  GOOGLE_REDIRECT_URI := "http://localhost/auth/google/callback";
  GITHUB_CLIENT_ID := "github-client";
  GITHUB_REDIRECT_URI := "http://localhost/auth/github/callback";
  sign := demo_sign;
  hashpw := demo_hashpw;
  isoformat := pretty;
  urlencode := demo_urlencode;
  lower := demo_lower;
  strip := demo_strip;
  len := String.length;
  int_of_str := demo_int_of_str;
  lower_idem := demo_lower_idem;
  lower_empty := demo_lower_empty;
|}.

Definition empty_redis : Redis := mkRedis ∅ ∅ ∅ ∅.

(** A provider that refuses every request. *)
Definition no_provider (rq : Request) : Response :=
  mkResponse 503 (JScalar VNone).

Definition demo_world (now : Z) : World := mkWorld empty_redis now no_provider [].

(** ** Notions used in the statements *)

(** The claims carried by a token issued for [sub]. *)
Definition issued_claims (sub : string) (expire : Z) : dict :=
  <["exp" := VInt (timegm expire)]>
    (<["exp" := VDatetime expire]> ({["sub" := VStr sub]} : dict)).

(** The same world at another instant. *)
Definition set_clock (t : Z) (w : World) : World :=
  mkWorld (redis w) t (provider w) (outbound w).

(** How long a token lives (ms): [expires_delta or timedelta(minutes=...)]
    in [create_access_token]. *)
Definition lifetime `{Platform} (expires_delta : option Z) : Z :=
  match expires_delta with
  | Some d => if Z.eqb d 0 then minutes ACCESS_TOKEN_EXPIRE_MINUTES else d
  | None => minutes ACCESS_TOKEN_EXPIRE_MINUTES
  end.

(** What [redis_get_user_by_email] finds in a store. *)
Definition find_by_email `{Platform} (r : Redis) (email : string) : option dict :=
  match email_to_id_key r !! lower email with
  | Some uid => if String.eqb uid "" then None else user_key r !! uid
  | None => None
  end.

(** *** The states the backend can be in *)

(** A request to one of the routes of the application, with the random
    values its handler draws. *)
Inductive call :=
| Register (payload : UserCreate) (user_id salt : string)
| Login (username password : string)
| GoogleLogin (state : string)
| GoogleCallback (code state new_id : string)
| GithubLogin (state : string)
| GithubCallback (code state hex new_id : string)
| GetMyProfile (authorization : option (string * token))
| UpdateMyProfile (payload : UserUpdate) (authorization : option (string * token))
| DeleteMyAccount (authorization : option (string * token))
| GetUserProfile (user_id : string) (authorization : option (string * token))
| SearchUsers (q : string) (authorization : option (string * token))
| Health.

Definition handle `{Platform} (c : call) : M response :=
  match c with
  | Register payload user_id salt => register payload user_id salt
  | Login username password => login username password
  | GoogleLogin state => google_login state
  | GoogleCallback code state new_id => google_callback code state new_id
  | GithubLogin state => github_login state
  | GithubCallback code state hex new_id => github_callback code state hex new_id
  | GetMyProfile authorization => get_my_profile authorization
  | UpdateMyProfile payload authorization => update_my_profile payload authorization
  | DeleteMyAccount authorization => delete_my_account authorization
  | GetUserProfile user_id authorization => get_user_profile user_id authorization
  | SearchUsers q authorization => search_users q authorization
  | Health => health
  end.

(** [str(uuid.uuid4())] is not empty and not the id of a stored record. *)
Definition fresh_id (user_id : string) (w : World) : Prop :=
  user_id ≠ "" ∧ user_key (redis w) !! user_id = None.

Definition fresh_ids (c : call) (w : World) : Prop :=
  match c with
  | Register _ user_id _ => fresh_id user_id w
  | GoogleCallback _ _ new_id => fresh_id new_id w
  | GithubCallback _ _ _ new_id => fresh_id new_id w
  | _ => True
  end.

(** The worlds the backend reaches from an empty store: requests are
    handled one after another, whatever they are; between two requests the
    clock and the answers of the providers may change. *)
Inductive reachable `{Platform} : World → Prop :=
| reachable_start (now : Z) (answers : Request → Response) :
    reachable (mkWorld empty_redis now answers [])
| reachable_env (w : World) (now : Z) (answers : Request → Response) :
    reachable w → reachable (mkWorld (redis w) now answers (outbound w))
| reachable_call (w : World) (c : call) :
    reachable w → fresh_ids c w → reachable (handle c w).2.

(** The store invariant of the reachable worlds: identifiers in the email
    index are non-empty; every record carries its own key as [user_id] and
    a string email, under whose lowercase form the index points back to it;
    every entry of the index points to a record whose email lowercases to
    the entry's key. *)
Definition store_consistent `{Platform} (r : Redis) : Prop :=
  (∀ k uid, email_to_id_key r !! k = Some uid → uid ≠ "") ∧
  (∀ uid d, user_key r !! uid = Some d →
     d !! "user_id" = Some (VStr uid) ∧
     ∃ e, d !! "email" = Some (VStr e) ∧ email_to_id_key r !! lower e = Some uid) ∧
  (∀ k uid, email_to_id_key r !! k = Some uid →
     ∃ d e, user_key r !! uid = Some d ∧ d !! "email" = Some (VStr e) ∧ lower e = k).

(** The records of a store whose email is [email] in some casing. *)
Definition carries_email `{Platform} (r : Redis) (email uid : string) : Prop :=
  ∃ d e, user_key r !! uid = Some d ∧ d !! "email" = Some (VStr e) ∧
         lower e = lower email.

(** The two providers, and the login, callback and first outbound request
    of each. *)
Inductive oauth_provider := Google | Github.

Definition provider_tag (p : oauth_provider) : string :=
  match p with
  | Google => "google"
  | Github => "github"
  end.

Definition oauth_login `{Platform} (p : oauth_provider) (state : string) : M response :=
  match p with
  | Google => google_login state
  | Github => github_login state
  end.

Definition oauth_callback `{Platform} (p : oauth_provider)
    (code state hex new_id : string) : M response :=
  match p with
  | Google => google_callback code state new_id
  | Github => github_callback code state hex new_id
  end.

Definition oauth_authenticated `{Platform} (p : oauth_provider)
    (code hex new_id : string) : M response :=
  match p with
  | Google => google_authenticated code new_id
  | Github => github_authenticated code hex new_id
  end.

(** The world once [r.delete(f"oauth_state:{state}")] has run. *)
Definition redeemed (state : string) (w : World) : World :=
  (delete_oauth_state state w).2.

(** The world in which the nonce [state] is stored with value [v]. *)
Definition with_oauth_state (state v : string) (expires_at : Z) (w : World) : World :=
  mkWorld (mkRedis (user_key (redis w)) (email_to_id_key (redis w))
                   (<[state := (v, expires_at)]> (oauth_state_key (redis w)))
                   (users_all (redis w)))
          (clock w) (provider w) (outbound w).

(** *** A store with one registered user *)

Definition ann_world : World :=
  (register (H := demo_platform) (mkUserCreate "Ann@X.com" "pw" "Ann" None None)
     "id-1" "$2b$12$saltsalt" (demo_world 5)).2.

Definition ann_record : dict :=
  new_user (VStr "id-1") (VStr "ann@x.com") (VStr "$2b$12$pw") (VStr "Ann")
    (VStr "") (VStr "") (VStr "") (VStr "") (VStr "") (VStr "email") (VStr "")
    (VStr "5").

(** The origin and provider of a redirect. *)
Definition redirect_of (o : outcome response) : option (string * string) :=
  match o with
  | Ok (RedirectResponse origin _ provider_name) => Some (origin, provider_name)
  | _ => None
  end.

(** *** GitHub email resolution, as the specification words it *)

(** A list entry flagged both primary and verified. *)
Definition flagged (i : item) : option dict :=
  match i with
  | IObject e =>
      if truthy (get e "primary") && truthy (get e "verified") then Some e else None
  | IScalar _ => None
  end.

Definition first_flagged (emails : list item) : option dict :=
  head (omap flagged emails).

(** The lowercased text of an email field; a missing or non-string field
    has none. *)
Definition email_text `{Platform} (v : value) : string :=
  match v with
  | VStr s => lower s
  | _ => ""
  end.

Definition placeholder (id : value) : string :=
  "gh_" +:+ str id +:+ "@github.noemail".

(** The three stages as the specification states them: the first flagged
    entry if one exists; otherwise the profile's email if non-empty;
    otherwise the placeholder built from the provider's user id. *)
Definition spec_resolve_email `{Platform} (emails : list item) (profile : dict) : string :=
  match first_flagged emails with
  | Some e => email_text (get e "email")
  | None =>
      if truthy (get profile "email") then email_text (get profile "email")
      else placeholder (get profile "id")
  end.

(** *** Merging an OAuth login into an existing record *)

(** What a merge may do to the store: the record [user] stored under [uid]
    becomes [user'], which differs from it in [avatar_url] and [updated_at]
    at most; no record is added; the email index and the directory set are
    the same. *)
Definition merge_frame (w w' : World) (uid : string) (user user' : dict) : Prop :=
  user_key (redis w') = <[uid := user']> (user_key (redis w)) ∧
  dom (user_key (redis w')) = dom (user_key (redis w)) ∧
  email_to_id_key (redis w') = email_to_id_key (redis w) ∧
  users_all (redis w') = users_all (redis w) ∧
  (∀ k, k ≠ "avatar_url" → k ≠ "updated_at" → user' !! k = user !! k).

(** A store with one email/password account, a state nonce, and a GitHub
    that answers every request with status 200: the profile carries the
    account's email and a bio, a location and a website of its own. *)
Definition merge_provider (rq : Request) : Response :=
  match rq with
  | GithubToken _ | GoogleToken _ =>
      mkResponse 200 (JObject (list_to_map [("access_token", VStr "tok")]))
  | GithubUser _ =>
      mkResponse 200 (JObject (list_to_map [
        ("id", VInt 7); ("login", VStr "ann"); ("email", VStr "ann@x.com");
        ("avatar_url", VStr "https://avatars/7"); ("bio", VStr "new bio");
        ("location", VStr "Oslo"); ("blog", VStr "https://ann.example")]))
  | GithubEmails _ => mkResponse 200 (JArray [])
  | GoogleUserinfo _ =>
      mkResponse 200 (JObject (list_to_map [
        ("sub", VStr "g-7"); ("email", VStr "ann@x.com"); ("name", VStr "Ann")]))
  end.

Definition merge_world : World :=
  let w := (register (H := demo_platform)
              (mkUserCreate "ann@x.com" "pw" "Ann" (Some "old bio") None)
              "id-1" "$2b$12$saltsalt" (demo_world 5)).2 in
  let w := (github_login (H := demo_platform) "nonce" w).2 in
  mkWorld (redis w) 9 merge_provider [].

Definition merge_record : dict :=
  new_user (VStr "id-1") (VStr "ann@x.com") (VStr "$2b$12$pw") (VStr "Ann")
    (VStr "old bio") (VStr "") (VStr "") (VStr "") (VStr "") (VStr "email") (VStr "")
    (VStr "5").

Definition merge_identity : github_identity :=
  mkGithubIdentity "ann@x.com" (VStr "7") (VStr "ann") (VStr "https://avatars/7")
    (VStr "new bio") (VStr "Oslo") (VStr "https://ann.example").

(** The fields of the record stored under [uid] that a merge is claimed to
    refresh. *)
Definition refreshed_fields (w : World) (uid : string) : option (list value) :=
  (λ d, [get d "avatar_url"; get d "bio"; get d "location"; get d "website";
         get d "updated_at"]) <$> user_key (redis w) !! uid.

(** The examples of the specification: two listed emails of which the
    second is primary and verified, and three profiles. *)
Definition entry_a : dict :=
  list_to_map [("email", VStr "a@x.com"); ("primary", VBool false);
               ("verified", VBool true)].

Definition entry_b : dict :=
  list_to_map [("email", VStr "b@x.com"); ("primary", VBool true);
               ("verified", VBool true)].

Definition profile_without_email : dict := list_to_map [("id", VInt 7)].

Definition profile_with_email : dict :=
  list_to_map [("id", VInt 7); ("email", VStr "c@x.com")].

Definition profile_null_email : dict :=
  list_to_map [("id", VInt 7); ("email", VNone)].

(** The body GitHub sends with an error status. *)
Definition error_body : dict := list_to_map [("message", VStr "Bad credentials")].

(** *** A GitHub whose profile endpoint refuses the access token *)

Definition refusing_github (rq : Request) : Response :=
  match rq with
  | GithubToken _ =>
      mkResponse 200 (JObject (list_to_map [("access_token", VStr "tok")]))
  | _ => mkResponse 401 (JObject error_body)
  end.

Definition refused_world : World :=
  mkWorld (redis (github_login (H := demo_platform) "nonce" (demo_world 5)).2)
          9 refusing_github [].

(** The email of the record stored under [uid]. *)
Definition stored_email (w : World) (uid : string) : option value :=
  (λ d, get d "email") <$> user_key (redis w) !! uid.

(** The user records, the email index and the directory set. *)
Definition accounts (w : World) : gmap string dict * gmap string string * gset string :=
  (user_key (redis w), email_to_id_key (redis w), users_all (redis w)).

(** *** Response bodies *)

(** Whether the JSON body of a response has a field named [k], at any
    depth. A redirect has no body. *)
Definition has_key (k : string) (d : dict) : bool :=
  match d !! k with
  | Some _ => true
  | None => false
  end.

Definition exposes (k : string) (r : response) : bool :=
  match r with
  | TokenResponse _ _ _ _ _ =>
      existsb (String.eqb k)
        ["access_token"; "token_type"; "user_id"; "display_name"; "email"]
  | RedirectResponse _ _ _ => false
  | AuthUrl _ _ => existsb (String.eqb k) ["auth_url"; "state"]
  | Profile body => has_key k body
  | SearchResults results _ =>
      existsb (String.eqb k) ["results"; "count"] || existsb (has_key k) results
  | Message _ => existsb (String.eqb k) ["message"]
  end.

(** The response, if there is one, has no [password_hash] field; an error
    response carries only the fixed [detail] text. *)
Definition hides_password_hash (o : outcome response) : Prop :=
  match o with
  | Ok r => exposes "password_hash" r = false
  | Raise _ => True
  end.

(** Every value a computation can return satisfies [Q]. *)
Definition returns {A : Type} (Q : A → Prop) (m : M A) : Prop :=
  ∀ w, match (m w).1 with
       | Ok a => Q a
       | Raise _ => True
       end.

(** A computation that only adds to the requests sent to the providers. *)
Definition grows {A : Type} (m : M A) : Prop :=
  ∀ w, outbound w `prefix_of` outbound (m w).2.

(** A computation that leaves an observation [f] of the world unchanged. *)
Definition keeps {X A : Type} (f : World → X) (m : M A) : Prop :=
  ∀ w, f (m w).2 = f w.

Definition token_request (p : oauth_provider) (code : string) : Request :=
  match p with
  | Google => GoogleToken code
  | Github => GithubToken code
  end.

Definition invalid_oauth_state : exn := HTTPException 400 "Invalid OAuth state" [].
Definition unauthorized : exn := HTTPException 401 "Invalid or expired token" challenge.
Definition not_authenticated : exn := HTTPException 401 "Not authenticated" challenge.
Definition user_not_found : exn := HTTPException 404 "User not found" [].
Definition email_taken : exn := HTTPException 400 "Email already registered" [].

(** A compact token signed with the server's key under the configured
    algorithm. *)
Definition well_signed `{Platform} (j : jws) : Prop :=
  jws_alg j = ALGORITHM ∧
  jws_signature j = sign (jws_alg j) SECRET_KEY (jws_alg j, jws_payload j).

(** A world whose store satisfies the invariant. *)
Definition consistent `{Platform} (w : World) : Prop := store_consistent (redis w).

(** A computation that takes the worlds satisfying [P] to worlds satisfying
    [Q], whether it returns or raises. *)
Definition leads {A : Type} (P Q : World → Prop) (m : M A) : Prop :=
  ∀ w, P w → Q (m w).2.

(** * Properties *)

(** Closed equations between large terms are checked by evaluation. *)
Ltac vm_refl :=
  lazymatch goal with
  | |- ?l = ?r => vm_cast_no_check (eq_refl r)
  end.

(** ** Records *)

Lemma new_user_email (uid em ph dn bio intr av loc web prov oid now : value) :
  new_user uid em ph dn bio intr av loc web prov oid now !! "email" = Some em.
Proof. reflexivity. Qed.

Lemma new_user_user_id (uid em ph dn bio intr av loc web prov oid now : value) :
  new_user uid em ph dn bio intr av loc web prov oid now !! "user_id" = Some uid.
Proof. reflexivity. Qed.

(** ** Token service *)

Section TokenProperties.
Context `{Platform}.

Lemma timegm_mono (a b : Z) : a ≤ b → timegm a ≤ timegm b.
Proof. intros Hab. unfold timegm. apply Z.div_le_mono; lia. Qed.

Lemma timegm_next_second (a b : Z) : a + 1000 ≤ b → timegm a < timegm b.
Proof.
  intros Hab. unfold timegm.
  assert (a / 1000 + 1 ≤ b / 1000); [|lia].
  replace (a / 1000 + 1) with ((a + 1 * 1000) / 1000) by (rewrite Z.div_add; lia).
  apply Z.div_le_mono; lia.
Qed.

(** The claims of an issued token: a subject and an expiry, nothing else. *)
Lemma issued_claims_exp sub expire :
  issued_claims sub expire !! "exp" = Some (VInt (timegm expire)).
Proof. unfold issued_claims. by rewrite lookup_insert_eq. Qed.

Lemma issued_claims_sub sub expire :
  issued_claims sub expire !! "sub" = Some (VStr sub).
Proof.
  unfold issued_claims.
  rewrite !lookup_insert_ne by done. by rewrite lookup_singleton_eq.
Qed.

Lemma issued_claims_other sub expire (k : string) :
  k ≠ "exp" → k ≠ "sub" → issued_claims sub expire !! k = None.
Proof.
  intros Hexp Hsub. unfold issued_claims.
  rewrite !lookup_insert_ne by done. by rewrite lookup_singleton_ne.
Qed.

(** The token [jwt.encode] makes of a subject and an expiry instant. *)
Lemma jwt_encode_issued (sub : string) (expire : Z) (key alg : string) :
  jwt_encode (<["exp" := VDatetime expire]> {["sub" := VStr sub]}) key alg =
  Compact {| jws_alg := alg;
             jws_payload := PClaims (issued_claims sub expire);
             jws_signature := sign alg key (alg, PClaims (issued_claims sub expire)) |}.
Proof.
  unfold jwt_encode.
  assert (Hclaims : intdate "nbf" (intdate "iat" (intdate "exp"
                      (<["exp" := VDatetime expire]> {["sub" := VStr sub]})))
                    = issued_claims sub expire).
  { unfold intdate at 3. rewrite lookup_insert_eq. fold (issued_claims sub expire).
    unfold intdate. by rewrite !issued_claims_other. }
  by rewrite Hclaims.
Qed.

Lemma create_access_token_issued (sub : string) (expires_delta : option Z) (t0 : Z) :
  create_access_token {["sub" := VStr sub]} expires_delta t0 =
  Compact {| jws_alg := ALGORITHM;
             jws_payload := PClaims (issued_claims sub (t0 + lifetime expires_delta));
             jws_signature :=
               sign ALGORITHM SECRET_KEY
                    (ALGORITHM,
                     PClaims (issued_claims sub (t0 + lifetime expires_delta))) |}.
Proof. unfold create_access_token. apply jwt_encode_issued. Qed.

Lemma create_access_token_unfold (sub : string) (ttl t0 : Z) :
  ttl ≠ 0 →
  create_access_token {["sub" := VStr sub]} (Some ttl) t0 =
  Compact {| jws_alg := ALGORITHM;
             jws_payload := PClaims (issued_claims sub (t0 + ttl));
             jws_signature :=
               sign ALGORITHM SECRET_KEY
                    (ALGORITHM, PClaims (issued_claims sub (t0 + ttl))) |}.
Proof.
  intros Hne. rewrite create_access_token_issued. simpl.
  by destruct (Z.eqb_spec ttl 0).
Qed.

(** What the claim validators answer on the claims of an issued token. *)
Lemma validate_claims_issued (sub : string) (expire now : Z) :
  validate_claims (issued_claims sub expire) now =
  if (timegm expire <? timegm now)%Z then Raise ExpiredSignatureError else Ok ().
Proof.
  unfold validate_claims, validate_iat, validate_nbf, validate_exp, validate_aud,
    validate_sub, validate_jti, validate_at_hash, claim_int.
  rewrite issued_claims_exp, issued_claims_sub, !issued_claims_other by done. simpl.
  by destruct (timegm expire <? timegm now)%Z.
Qed.

(** What [verify_token] answers on a correctly signed token carrying the
    issued claims, at any clock value. *)
Lemma verify_issued (sub : string) (expire now : Z) :
  verify_token
    (Compact {| jws_alg := ALGORITHM;
                jws_payload := PClaims (issued_claims sub expire);
                jws_signature :=
                  sign ALGORITHM SECRET_KEY
                       (ALGORITHM, PClaims (issued_claims sub expire)) |}) now
  = if (timegm expire <? timegm now)%Z then Ok VNone else Ok (VStr sub).
Proof.
  unfold verify_token, jwt_decode, jws_verify; simpl.
  rewrite bool_decide_eq_true_2 by set_solver.
  rewrite String.eqb_refl. simpl.
  rewrite validate_claims_issued.
  destruct (timegm expire <? timegm now)%Z; simpl; [done|].
  unfold get. by rewrite issued_claims_sub.
Qed.

(** A token whose signature is not the one the key yields is rejected. *)
Lemma verify_bad_signature (j : jws) (now : Z) :
  jws_signature j ≠ sign (jws_alg j) SECRET_KEY (jws_alg j, jws_payload j) →
  verify_token (Compact j) now = Ok VNone.
Proof.
  intros Hsig. unfold verify_token, jwt_decode, jws_verify; simpl.
  case_bool_decide; [|done].
  destruct (String.eqb_spec (sign (jws_alg j) SECRET_KEY (jws_alg j, jws_payload j))
                            (jws_signature j)); [congruence|done].
Qed.

Lemma verify_opaque (s : string) (now : Z) : verify_token (Opaque s) now = Ok VNone.
Proof. done. Qed.

(** C1 (amended): round trip of an issued token. A token issued at [t0] for
    [sub] with a positive [ttl] verifies to [sub] at every instant strictly
    before [t0 + ttl], and more precisely as long as the clock, in whole
    seconds, has not passed the whole second of [t0 + ttl]; it verifies to
    [None] once the clock's whole second is past it, in particular from
    [t0 + ttl] plus one second on; a token that differs from the issued one
    in its signature verifies to [None] at every instant; none of these
    calls raises. *)
Theorem token_round_trip (sub : string) (ttl t0 : Z) (Httl : 0 < ttl) :
  let tok := create_access_token {["sub" := VStr sub]} (Some ttl) t0 in
  (∀ t, t < t0 + ttl → verify_token tok t = Ok (VStr sub)) ∧
  (∀ t, timegm t ≤ timegm (t0 + ttl) → verify_token tok t = Ok (VStr sub)) ∧
  (∀ t, timegm (t0 + ttl) < timegm t → verify_token tok t = Ok VNone) ∧
  (∀ t, t0 + ttl + 1000 ≤ t → verify_token tok t = Ok VNone) ∧
  (∀ t j sig, tok = Compact j → sig ≠ jws_signature j →
     verify_token (Compact {| jws_alg := jws_alg j;
                              jws_payload := jws_payload j;
                              jws_signature := sig |}) t = Ok VNone).
Proof.
  intros tok. subst tok.
  rewrite create_access_token_unfold by lia.
  assert (Hlate : ∀ t, timegm (t0 + ttl) < timegm t →
            (timegm (t0 + ttl) <? timegm t)%Z = true) by (intros; lia).
  assert (Hearly : ∀ t, timegm t ≤ timegm (t0 + ttl) →
            (timegm (t0 + ttl) <? timegm t)%Z = false) by (intros; lia).
  repeat split.
  - intros t Ht. rewrite verify_issued, Hearly; [done|].
    apply timegm_mono. lia.
  - intros t Ht. by rewrite verify_issued, Hearly.
  - intros t Ht. by rewrite verify_issued, Hlate.
  - intros t Ht. rewrite verify_issued, Hlate; [done|].
    by apply timegm_next_second.
  - intros t j sig [= <-] Hsig. simpl in *.
    apply verify_bad_signature. simpl. congruence.
Qed.

(** ** Password hasher *)

(** C9: [verify_password] is total and fail-closed. For every plaintext
    and every stored value it returns a boolean without raising; the answer
    is [True] only when the stored value is a string that bcrypt re-derives
    from the plaintext, and [False] in every other case (a malformed or
    empty hash, a value that is not a string, any error inside bcrypt). *)
Theorem verify_password_fail_closed (plain : string) (hashed : value) :
  (verify_password plain hashed = Ok true ∧
   ∃ h, hashed = VStr h ∧ hashpw plain h = Ok h)
  ∨ (verify_password plain hashed = Ok false ∧
     (∀ h, hashed = VStr h → hashpw plain h ≠ Ok h)).
Proof.
  unfold verify_password, checkpw.
  destruct hashed as [| | |h|]; simpl; try (right; split; [done|congruence]).
  destruct (hashpw plain h) as [ret|e] eqn:Hh; simpl.
  - destruct (String.eqb_spec ret h) as [->|Hne].
    + left. eauto.
    + right. split; [done|]. intros h' [= <-]. congruence.
  - right. split; [done|]. intros h' [= <-]. congruence.
Qed.

End TokenProperties.

(** C1 (witness): a one-second token issued at the epoch. *)
Lemma token_round_trip_witness :
  0 < 1000 ∧
  verify_token (H := demo_platform)
    (create_access_token (H := demo_platform) {["sub" := VStr "u1"]} (Some 1000) 0) 999
  = Ok (VStr "u1") ∧
  verify_token (H := demo_platform)
    (create_access_token (H := demo_platform) {["sub" := VStr "u1"]} (Some 1000) 0) 2000
  = Ok VNone.
Proof.
  pose proof (token_round_trip (H := demo_platform) "u1" 1000 0 ltac:(lia))
    as (Hbefore & _ & _ & Hafter & _).
  split; [lia|]. split; [apply Hbefore; lia|apply Hafter; lia].
Defined.

(** C1 (counterexample): at the very instant [issuance + ttl], and for the
    rest of that second, the issued token still verifies to its subject. *)
Lemma token_valid_at_expiry_instant :
  0 < 1000 ∧ 0 + 1000 ≤ 1000 ∧
  verify_token (H := demo_platform)
    (create_access_token (H := demo_platform) {["sub" := VStr "u1"]} (Some 1000) 0) 1000
  = Ok (VStr "u1") ∧
  verify_token (H := demo_platform)
    (create_access_token (H := demo_platform) {["sub" := VStr "u1"]} (Some 1000) 0) 1000
  ≠ Ok VNone.
Proof.
  split; [lia|]. split; [lia|].
  split; [vm_compute; reflexivity|vm_compute; discriminate].
Qed.

(** C9 (witness): a password checked against its own hash, against an
    empty hash, against a malformed hash and against a stored [None]. *)
Lemma verify_password_fail_closed_witness :
  verify_password (H := demo_platform) "pw" (VStr "$2b$12$pw") = Ok true ∧
  verify_password (H := demo_platform) "pw" (VStr "") = Ok false ∧
  verify_password (H := demo_platform) "pw" (VStr "not-a-hash") = Ok false ∧
  verify_password (H := demo_platform) "pw" VNone = Ok false.
Proof.
  split; [|split; [|split]].
  - destruct (verify_password_fail_closed (H := demo_platform) "pw" (VStr "$2b$12$pw"))
      as [[Htrue _]|[_ Hno]]; [exact Htrue|].
    by destruct (Hno "$2b$12$pw" eq_refl).
  - destruct (verify_password_fail_closed (H := demo_platform) "pw" (VStr ""))
      as [[_ (h & [= <-] & Hh)]|[Hfalse _]]; [discriminate Hh|exact Hfalse].
  - destruct (verify_password_fail_closed (H := demo_platform) "pw" (VStr "not-a-hash"))
      as [[_ (h & [= <-] & Hh)]|[Hfalse _]]; [discriminate Hh|exact Hfalse].
  - destruct (verify_password_fail_closed (H := demo_platform) "pw" VNone)
      as [[_ (h & Hh & _)]|[Hfalse _]]; [discriminate Hh|exact Hfalse].
Defined.

(** ** Session guard *)

Section GuardProperties.
Context `{Platform}.

(** Running a bind: the first computation, then the second on success. *)
Lemma run_bind {A B} (m : M A) (f : A → M B) (w : World) :
  (m ≫= f) w =
  match m w with
  | (Ok a, w') => f a w'
  | (Raise e, w') => (Raise e, w')
  end.
Proof. reflexivity. Qed.

(** The guard, given what [verify_token] answers. *)
Lemma guard_falsy (scheme : string) (t : token) (v : value) (w : World) :
  lower scheme = "bearer" → verify_token t (clock w) = Ok v → truthy v = false →
  get_current_user (Some (scheme, t)) w = (Raise unauthorized, w).
Proof.
  intros Hs Hv Ht. unfold get_current_user. rewrite run_bind.
  unfold lift, oauth2_scheme. rewrite Hs. simpl.
  rewrite run_bind, Hv. simpl. by rewrite Ht.
Qed.

Lemma guard_subject (scheme : string) (t : token) (s : string) (w : World) :
  lower scheme = "bearer" → verify_token t (clock w) = Ok (VStr s) → s ≠ "" →
  get_current_user (Some (scheme, t)) w =
  match user_key (redis w) !! s with
  | Some d => if bool_decide (d = ∅) then (Raise user_not_found, w) else (Ok d, w)
  | None => (Raise user_not_found, w)
  end.
Proof.
  intros Hs Hv Hne. unfold get_current_user. rewrite run_bind.
  unfold lift, oauth2_scheme. rewrite Hs. simpl.
  rewrite run_bind, Hv. simpl.
  destruct (String.eqb_spec s ""); [done|]. simpl.
  rewrite run_bind. unfold redis_get_user, gets. simpl.
  destruct (user_key (redis w) !! s) as [d|]; simpl; [|done].
  case_bool_decide; done.
Qed.

Lemma verify_not_well_signed (j : jws) (now : Z) :
  ¬ well_signed j → verify_token (Compact j) now = Ok VNone.
Proof.
  intros Hj. unfold verify_token, jwt_decode, jws_verify; simpl.
  case_bool_decide as Halg; [|done].
  apply list_elem_of_singleton in Halg.
  destruct (String.eqb_spec (sign (jws_alg j) SECRET_KEY (jws_alg j, jws_payload j))
                            (jws_signature j)) as [Heq|]; [|done].
  destruct Hj. by split.
Qed.

(** What [verify_token] answers on a token issued by
    [create_access_token]. *)
Lemma verify_created (sub : string) (expires_delta : option Z) (t0 now : Z) :
  verify_token (create_access_token {["sub" := VStr sub]} expires_delta t0) now
  = if (timegm (t0 + lifetime expires_delta) <? timegm now)%Z
    then Ok VNone else Ok (VStr sub).
Proof. rewrite create_access_token_issued. apply verify_issued. Qed.

(** C2: the session guard tells its two failure modes apart. In every
    world: a request without a bearer credential (no header, or another
    scheme) fails with 401 "Not authenticated" and the challenge header; a
    bearer token that is malformed, or that is not signed with the server's
    key under the configured algorithm, fails with 401 "Invalid or expired
    token" and the challenge header; so does a token issued by
    [create_access_token] once the clock, in whole seconds, is past its
    expiry. A token issued by [create_access_token] for a non-empty subject
    (every endpoint issues its tokens for the [user_id] of a record) that
    has not expired fails with 404 "User not found" when no record is stored
    under the subject, and yields the stored record in full when there is
    one. A failing guard leaves the world as it was. *)
Theorem session_guard (w : World) :
  get_current_user None w = (Raise not_authenticated, w) ∧
  (∀ scheme t, lower scheme ≠ "bearer" →
     get_current_user (Some (scheme, t)) w = (Raise not_authenticated, w)) ∧
  (∀ scheme s, lower scheme = "bearer" →
     get_current_user (Some (scheme, Opaque s)) w = (Raise unauthorized, w)) ∧
  (∀ scheme j, lower scheme = "bearer" → ¬ well_signed j →
     get_current_user (Some (scheme, Compact j)) w = (Raise unauthorized, w)) ∧
  (∀ scheme sub expires_delta t0, lower scheme = "bearer" →
     timegm (t0 + lifetime expires_delta) < timegm (clock w) →
     get_current_user
       (Some (scheme, create_access_token {["sub" := VStr sub]} expires_delta t0)) w
     = (Raise unauthorized, w)) ∧
  (∀ scheme sub expires_delta t0, lower scheme = "bearer" → sub ≠ "" →
     timegm (clock w) ≤ timegm (t0 + lifetime expires_delta) →
     (user_key (redis w) !! sub = None →
        get_current_user
          (Some (scheme, create_access_token {["sub" := VStr sub]} expires_delta t0)) w
        = (Raise user_not_found, w)) ∧
     (∀ d, user_key (redis w) !! sub = Some d → d ≠ ∅ →
        get_current_user
          (Some (scheme, create_access_token {["sub" := VStr sub]} expires_delta t0)) w
        = (Ok d, w))).
Proof.
  split; [done|].
  split.
  { intros scheme t Hs. unfold get_current_user. rewrite run_bind.
    unfold lift, oauth2_scheme.
    destruct (String.eqb_spec (lower scheme) "bearer"); done. }
  split.
  { intros scheme s Hs. by eapply guard_falsy; [|apply verify_opaque|]. }
  split.
  { intros scheme j Hs Hj. by eapply guard_falsy; [|by apply verify_not_well_signed|]. }
  split.
  { intros scheme sub expires_delta t0 Hs Hlate.
    apply (guard_falsy scheme _ VNone); [done| |done].
    rewrite verify_created.
    by destruct (Z.ltb_spec (timegm (t0 + lifetime expires_delta)) (timegm (clock w)));
      [|lia]. }
  intros scheme sub expires_delta t0 Hs Hne Hlive.
  assert (Hv : verify_token
                 (create_access_token {["sub" := VStr sub]} expires_delta t0) (clock w)
               = Ok (VStr sub)).
  { rewrite verify_created.
    by destruct (Z.ltb_spec (timegm (t0 + lifetime expires_delta)) (timegm (clock w)));
      [lia|]. }
  split.
  - intros Hnone. rewrite (guard_subject scheme _ sub) by done. by rewrite Hnone.
  - intros d Hd Hd'. rewrite (guard_subject scheme _ sub) by done. rewrite Hd.
    by rewrite bool_decide_eq_false_2.
Qed.

End GuardProperties.

Lemma ann_world_record : user_key (redis ann_world) !! "id-1" = Some ann_record.
Proof. vm_refl. Qed.

Lemma ann_world_index : email_to_id_key (redis ann_world) !! "ann@x.com" = Some "id-1".
Proof. vm_refl. Qed.

Lemma ann_record_nonempty : ann_record ≠ ∅.
Proof.
  intros Heq. apply (f_equal (lookup "email")) in Heq.
  unfold ann_record in Heq. rewrite new_user_email in Heq. by rewrite lookup_empty in Heq.
Qed.

(** C2 (witness): a store holding one registered user, and the token
    issued at her registration, presented at the same instant. *)
Lemma session_guard_witness :
  get_current_user (H := demo_platform)
    (Some ("Bearer", create_access_token (H := demo_platform)
                       {["sub" := VStr "id-1"]} None 5)) ann_world
  = (Ok ann_record, ann_world).
Proof.
  pose proof (session_guard (H := demo_platform) ann_world)
    as (_ & _ & _ & _ & _ & Hvalid).
  apply (Hvalid "Bearer" "id-1" None 5).
  - reflexivity.
  - discriminate.
  - vm_compute. discriminate.
  - apply ann_world_record.
  - apply ann_record_nonempty.
Defined.

(** ** Credential store and registration *)

Section StoreRuns.
Context `{Platform}.

Lemma redis_get_user_by_email_run (email : string) (w : World) :
  redis_get_user_by_email email w = (Ok (find_by_email (redis w) email), w).
Proof.
  unfold redis_get_user_by_email, find_by_email. rewrite run_bind.
  unfold gets. simpl.
  destruct (email_to_id_key (redis w) !! lower email) as [uid|]; simpl; [|done].
  destruct (String.eqb uid ""); simpl; done.
Qed.

(** [redis_set_user] on a record whose email is a string. *)
Lemma redis_set_user_run (uid e : string) (data : dict) (w : World) :
  data !! "email" = Some (VStr e) →
  redis_set_user (VStr uid) data w =
  (Ok (), mkWorld (mkRedis (<[uid := data]> (user_key (redis w)))
                           (<[lower e := uid]> (email_to_id_key (redis w)))
                           (oauth_state_key (redis w)) (users_all (redis w)))
                  (clock w) (provider w) (outbound w)).
Proof.
  intros He. unfold redis_set_user. rewrite !run_bind. simpl.
  unfold lift, getitem. rewrite He. done.
Qed.

(** The two ways [register] ends: an exception with the world untouched, or
    a new record written under [new_id]. *)
Lemma register_cases (w : World) (payload : UserCreate) (new_id salt : string) :
  (∃ e, register payload new_id salt w = (Raise e, w)) ∨
  (∃ hashed,
     dict_truthy (find_by_email (redis w) (uc_email payload)) = false ∧
     hashpw (uc_password payload) salt = Ok hashed ∧
     register payload new_id salt w =
     (Ok (TokenResponse (create_access_token {["sub" := VStr new_id]} None (clock w))
            "bearer" new_id (uc_display_name payload) (lower (uc_email payload))),
      mkWorld
        (mkRedis
           (<[new_id :=
                new_user (VStr new_id) (VStr (lower (uc_email payload))) (VStr hashed)
                  (VStr (uc_display_name payload))
                  (VStr (default "" (uc_bio payload)))
                  (VStr (default "" (uc_interests payload)))
                  (VStr "") (VStr "") (VStr "") (VStr "email") (VStr "")
                  (VStr (isoformat (clock w)))]> (user_key (redis w)))
           (<[lower (uc_email payload) := new_id]> (email_to_id_key (redis w)))
           (oauth_state_key (redis w)) ({[new_id]} ∪ users_all (redis w)))
        (clock w) (provider w) (outbound w))).
Proof.
  unfold register. rewrite run_bind, redis_get_user_by_email_run. simpl.
  destruct (dict_truthy (find_by_email (redis w) (uc_email payload))) eqn:Hfind;
    [left; by eexists|].
  rewrite run_bind. unfold lift at 1, hash_password.
  destruct (hashpw (uc_password payload) salt) as [hashed|e] eqn:Hhash;
    [|left; by eexists].
  right. exists hashed. split; [done|]. split; [done|]. simpl.
  rewrite run_bind. unfold gets at 1. simpl.
  rewrite run_bind.
  rewrite (redis_set_user_run new_id (lower (uc_email payload))) by apply new_user_email.
  rewrite lower_idem. simpl. reflexivity.
Qed.

End StoreRuns.

(** ** Frames: what a computation leaves untouched *)

Section Frames.
Context {X : Type} (f : World → X).

Lemma keeps_ret {A} (a : A) : keeps f (mret a).
Proof. by intros w. Qed.

Lemma keeps_raise {A} (e : exn) : keeps f (raise e : M A).
Proof. by intros w. Qed.

Lemma keeps_lift {A} (o : outcome A) : keeps f (lift o).
Proof. by intros w. Qed.

Lemma keeps_gets {A} (g : World → A) : keeps f (gets g).
Proof. by intros w. Qed.

Lemma keeps_bind {A B} (m : M A) (k : A → M B) :
  keeps f m → (∀ a, keeps f (k a)) → keeps f (m ≫= k).
Proof.
  intros Hm Hk w. rewrite run_bind. specialize (Hm w).
  destruct (m w) as [[a|e] w']; simpl in *; [|done].
  by rewrite Hk.
Qed.

End Frames.

(** The observations of the world used below. *)
Lemma keeps_modify_redis {X} (h : Redis → X) (g : Redis → Redis) :
  (∀ r, h (g r) = h r) → keeps (λ w, h (redis w)) (modify_redis g).
Proof. intros Hg w. apply Hg. Qed.

Lemma keeps_http_redis {X} (h : Redis → X) (rq : Request) :
  keeps (λ w, h (redis w)) (http rq).
Proof. by intros w. Qed.

Lemma keeps_redis_get_user_by_email `{Platform} {X} (f : World → X) (email : string) :
  keeps f (redis_get_user_by_email email).
Proof. intros w. by rewrite redis_get_user_by_email_run. Qed.

Ltac frame_step :=
  first
    [ apply keeps_bind; [|intros ?]
    | apply keeps_ret
    | apply keeps_raise
    | apply keeps_lift
    | apply keeps_gets
    | apply keeps_http_redis
    | apply keeps_redis_get_user_by_email
    | by apply keeps_modify_redis
    | solve [intros ?; reflexivity]
    | match goal with
      | |- keeps _ (if ?b then _ else _) => destruct b
      | |- keeps _ (match ?x with _ => _ end) => destruct x
      | |- keeps _ (let _ := _ in _) => cbv zeta
      end ].

Ltac frame := repeat frame_step.

(** Requests to the providers are only ever added. *)
Lemma grows_bind {A B} (m : M A) (k : A → M B) :
  grows m → (∀ a, grows (k a)) → grows (m ≫= k).
Proof.
  intros Hm Hk w. rewrite run_bind. specialize (Hm w).
  destruct (m w) as [[a|e] w']; simpl in *; [|done].
  etransitivity; [exact Hm|apply Hk].
Qed.

Lemma grows_same {A} (m : M A) : keeps outbound m → grows m.
Proof. intros Hm w. by rewrite Hm. Qed.

Lemma grows_http (rq : Request) : grows (http rq).
Proof. intros w. by apply prefix_app_r. Qed.

Ltac grow_step :=
  first
    [ apply grows_bind; [|intros ?]
    | apply grows_http
    | apply grows_same; solve [intros ?; reflexivity]
    | apply grows_same; apply keeps_redis_get_user_by_email
    | match goal with
      | |- grows (if ?b then _ else _) => destruct b
      | |- grows (match ?x with _ => _ end) => destruct x
      | |- grows (let _ := _ in _) => cbv zeta
      end ].

Ltac grow := repeat grow_step.

(** A computation that starts with a request has sent it when it ends. *)
Lemma sent_first {A B} (rq : Request) (k : Response → M A) (k' : A → M B) (w : World) :
  (∀ r, grows (k r)) → (∀ a, grows (k' a)) →
  (outbound w ++ [rq])%list `prefix_of` outbound (((http rq ≫= k) ≫= k') w).2.
Proof.
  intros Hk Hk'.
  assert (Hgrows : grows ((λ w', k (provider w rq) w') ≫= k')).
  { apply grows_bind; [apply Hk|apply Hk']. }
  specialize (Hgrows (mkWorld (redis w) (clock w) (provider w)
                              (outbound w ++ [rq])%list)).
  rewrite !run_bind in *. unfold http at 1. simpl in *. exact Hgrows.
Qed.

Section OAuthStateProperties.
Context `{Platform}.

(** Nothing after the state check writes to the [oauth_state:] keys. *)
Lemma keeps_state_redis_set_user (uid : value) (data : dict) :
  keeps (λ w, oauth_state_key (redis w)) (redis_set_user uid data).
Proof. unfold redis_set_user, set_user, set_email_to_id. frame. Qed.

Lemma keeps_state_google_authenticated (code new_id : string) :
  keeps (λ w, oauth_state_key (redis w)) (google_authenticated code new_id).
Proof.
  unfold google_authenticated, google_fetch_identity, google_link_account,
    redis_add_to_index, sadd_users_all.
  frame; apply keeps_state_redis_set_user.
Qed.

Lemma keeps_state_github_authenticated (code hex new_id : string) :
  keeps (λ w, oauth_state_key (redis w)) (github_authenticated code hex new_id).
Proof.
  unfold github_authenticated, github_fetch_identity, github_link_account,
    redis_add_to_index, sadd_users_all.
  frame; apply keeps_state_redis_set_user.
Qed.

Lemma keeps_state_oauth_authenticated (p : oauth_provider) (code hex new_id : string) :
  keeps (λ w, oauth_state_key (redis w)) (oauth_authenticated p code hex new_id).
Proof.
  destruct p; [apply keeps_state_google_authenticated
              |apply keeps_state_github_authenticated].
Qed.

(** The provider calls and the normalization read and write no record: in a
    callback, only the find-or-create phase touches the accounts. *)
Lemma keeps_accounts_google_fetch_identity (code : string) :
  keeps accounts (google_fetch_identity code).
Proof.
  unfold google_fetch_identity. frame.
Qed.

Lemma keeps_accounts_github_fetch_identity (code hex : string) :
  keeps accounts (github_fetch_identity code hex).
Proof.
  unfold github_fetch_identity. frame.
Qed.

Lemma keeps_accounts_delete_oauth_state (state : string) :
  keeps accounts (delete_oauth_state state).
Proof. by intros w. Qed.

Lemma grows_redis_set_user (uid : value) (data : dict) :
  grows (redis_set_user uid data).
Proof. unfold redis_set_user, set_user, set_email_to_id. grow. Qed.

(** Past the state check, the token request of the provider is sent. *)
Lemma oauth_authenticated_sends (p : oauth_provider) (code hex new_id : string)
    (w : World) :
  (outbound w ++ [token_request p code])%list
    `prefix_of` outbound (oauth_authenticated p code hex new_id w).2.
Proof.
  destruct p; unfold oauth_authenticated, token_request.
  - unfold google_authenticated, google_fetch_identity.
    apply sent_first.
    + intros r. grow.
    + intros [[[email oauth_id] display_name] avatar_url].
      unfold google_link_account, redis_add_to_index, sadd_users_all.
      grow; apply grows_redis_set_user.
  - unfold github_authenticated, github_fetch_identity.
    apply sent_first.
    + intros r. grow.
    + intros g. unfold github_link_account, redis_add_to_index, sadd_users_all.
      grow; apply grows_redis_set_user.
Qed.

(** The state check of both callbacks. *)
Lemma oauth_callback_run (p : oauth_provider) (code state hex new_id : string)
    (w : World) :
  oauth_callback p code state hex new_id w =
  if str_truthy (live_oauth_state (redis w) (clock w) state)
  then oauth_authenticated p code hex new_id (redeemed state w)
  else (Raise invalid_oauth_state, w).
Proof.
  destruct p;
    unfold oauth_callback, oauth_authenticated, google_callback, github_callback;
    rewrite run_bind; unfold get_oauth_state, gets;
    destruct (str_truthy _); done.
Qed.

Lemma redeemed_lookup (state : string) (w : World) :
  oauth_state_key (redis (redeemed state w)) !! state = None.
Proof. unfold redeemed. simpl. apply lookup_delete_eq. Qed.

(** A live nonce with a non-empty value is accepted by either callback and
    is gone afterwards. *)
Lemma callback_accepts (p : oauth_provider) (code state hex new_id v : string)
    (w : World) :
  live_oauth_state (redis w) (clock w) state = Some v → v ≠ "" →
  oauth_callback p code state hex new_id w =
    oauth_authenticated p code hex new_id (redeemed state w) ∧
  oauth_state_key (redis (oauth_callback p code state hex new_id w).2) !! state = None ∧
  (outbound w ++ [token_request p code])%list
    `prefix_of` outbound (oauth_callback p code state hex new_id w).2.
Proof.
  intros Hlive Hv. rewrite oauth_callback_run, Hlive. simpl.
  destruct (String.eqb_spec v ""); [done|]. simpl. split; [done|]. split.
  - rewrite (keeps_state_oauth_authenticated p code hex new_id (redeemed state w)).
    apply redeemed_lookup.
  - apply (oauth_authenticated_sends p code hex new_id (redeemed state w)).
Qed.

(** A nonce that is absent or expired is rejected by either callback, and
    the world is not touched. *)
Lemma callback_rejects (p : oauth_provider) (code state hex new_id : string)
    (w : World) :
  live_oauth_state (redis w) (clock w) state = None →
  oauth_callback p code state hex new_id w = (Raise invalid_oauth_state, w).
Proof. intros Hlive. by rewrite oauth_callback_run, Hlive. Qed.

(** The nonce a login endpoint stores. *)
Lemma oauth_login_stores (p : oauth_provider) (state : string) (w : World) :
  oauth_state_key (redis (oauth_login p state w).2) !! state
  = Some (provider_tag p, clock w + 600000).
Proof.
  destruct p; unfold oauth_login, google_login, github_login;
    rewrite run_bind; simpl; rewrite lookup_insert_eq;
    do 2 f_equal; lia.
Qed.

Lemma oauth_login_result (p : oauth_provider) (state : string) (w : World) :
  ∃ url, (oauth_login p state w).1 = Ok (AuthUrl url state).
Proof. destruct p; simpl; eexists; reflexivity. Qed.

Lemma live_set_clock (state : string) (w : World) (t : Z) :
  live_oauth_state (redis (set_clock t w)) (clock (set_clock t w)) state =
  match oauth_state_key (redis w) !! state with
  | Some (v, expires_at) => if (expires_at <? t)%Z then None else Some v
  | None => None
  end.
Proof. reflexivity. Qed.

Lemma provider_tag_nonempty (p : oauth_provider) : provider_tag p ≠ "".
Proof. by destruct p. Qed.

Lemma redeemed_with_oauth_state (state v : string) (expires_at : Z) (w : World) :
  redeemed state (with_oauth_state state v expires_at w) = redeemed state w.
Proof.
  unfold redeemed, with_oauth_state, delete_oauth_state, modify_redis. simpl.
  by rewrite delete_insert_eq.
Qed.

(** C4: state nonces are single-use. A nonce stored by either login
    endpoint at clock [clock w0] is redeemed by the first callback that
    presents it within 600 seconds: the callback passes the state check,
    goes on to the provider exchange in the world where the nonce is
    deleted (the token request of its provider is sent), and the nonce is
    still absent when the callback ends. Any later callback presenting the
    same nonce, and any callback presenting it after the 600 seconds have
    run out, is rejected with 400 "Invalid OAuth state" and returns the
    world untouched: no provider request is sent and no record is
    written. *)
Theorem oauth_state_single_use (p q q' : oauth_provider) (state : string)
    (w0 : World) (t1 t2 t3 : Z) (code hex new_id code' hex' new_id' : string)
    (Hwithin : t1 < clock w0 + 600000)
    (Hafter : clock w0 + 600000 < t3) :
  let w1 := (oauth_login p state w0).2 in
  let first := oauth_callback q code state hex new_id (set_clock t1 w1) in
  first = oauth_authenticated q code hex new_id (redeemed state (set_clock t1 w1)) ∧
  (outbound w1 ++ [token_request q code])%list `prefix_of` outbound first.2 ∧
  oauth_state_key (redis first.2) !! state = None ∧
  oauth_callback q' code' state hex' new_id' (set_clock t2 first.2)
    = (Raise invalid_oauth_state, set_clock t2 first.2) ∧
  outbound (oauth_callback q' code' state hex' new_id' (set_clock t2 first.2)).2
    = outbound first.2 ∧
  oauth_callback q' code' state hex' new_id' (set_clock t3 w1)
    = (Raise invalid_oauth_state, set_clock t3 w1).
Proof.
  intros w1 first.
  assert (Hlive : live_oauth_state (redis (set_clock t1 w1)) (clock (set_clock t1 w1))
                    state = Some (provider_tag p)).
  { rewrite live_set_clock. unfold w1. rewrite oauth_login_stores.
    destruct (Z.ltb_spec (clock w0 + 600000) t1); [lia|done]. }
  destruct (callback_accepts q code state hex new_id _ _ Hlive (provider_tag_nonempty p))
    as (Hrun & Hgone & Hsent).
  fold first in Hrun, Hgone, Hsent.
  assert (Hsecond : oauth_callback q' code' state hex' new_id' (set_clock t2 first.2)
                    = (Raise invalid_oauth_state, set_clock t2 first.2)).
  { apply callback_rejects. rewrite live_set_clock. by rewrite Hgone. }
  split; [done|]. split; [done|]. split; [done|]. split; [done|].
  split; [by rewrite Hsecond|].
  apply callback_rejects. rewrite live_set_clock. unfold w1.
  rewrite oauth_login_stores.
  destruct (Z.ltb_spec (clock w0 + 600000) t3); [done|lia].
Qed.

(** C10: the provider recorded with a state nonce is never compared with
    the endpoint that handles the callback. For every nonce present and
    unexpired in the store, whatever non-empty value is stored with it,
    either callback passes the state check, goes on to its provider
    exchange in the world where the nonce is deleted (its token request is
    sent), and leaves the nonce absent; the callback behaves identically
    whatever value is stored with the nonce; in particular a nonce stored
    by one provider's login endpoint is redeemed by the other provider's
    callback. *)
Theorem oauth_state_provider_not_compared (q : oauth_provider)
    (state v : string) (expires_at : Z) (w : World) (code hex new_id : string)
    (Hstored : oauth_state_key (redis w) !! state = Some (v, expires_at))
    (Hv : v ≠ "")
    (Hlive : clock w < expires_at) :
  oauth_callback q code state hex new_id w
    = oauth_authenticated q code hex new_id (redeemed state w) ∧
  oauth_state_key (redis (oauth_callback q code state hex new_id w).2) !! state = None ∧
  (outbound w ++ [token_request q code])%list
    `prefix_of` outbound (oauth_callback q code state hex new_id w).2 ∧
  (∀ v', v' ≠ "" →
     oauth_callback q code state hex new_id (with_oauth_state state v' expires_at w)
     = oauth_callback q code state hex new_id w) ∧
  (∀ (p : oauth_provider) (w0 : World) (t : Z), t < clock w0 + 600000 →
     oauth_callback q code state hex new_id (set_clock t (oauth_login p state w0).2)
     = oauth_authenticated q code hex new_id
         (redeemed state (set_clock t (oauth_login p state w0).2))).
Proof.
  assert (Hnow : live_oauth_state (redis w) (clock w) state = Some v).
  { unfold live_oauth_state. rewrite Hstored.
    destruct (Z.ltb_spec expires_at (clock w)); [lia|done]. }
  destruct (callback_accepts q code state hex new_id v w Hnow Hv)
    as (Hrun & Hgone & Hsent).
  split; [done|]. split; [done|]. split; [done|]. split.
  - intros v' Hv'.
    assert (Hnow' : live_oauth_state (redis (with_oauth_state state v' expires_at w))
                      (clock (with_oauth_state state v' expires_at w)) state = Some v').
    { unfold live_oauth_state, with_oauth_state. simpl. rewrite lookup_insert_eq.
      destruct (Z.ltb_spec expires_at (clock w)); [lia|done]. }
    destruct (callback_accepts q code state hex new_id v' _ Hnow' Hv') as (-> & _).
    by rewrite Hrun, redeemed_with_oauth_state.
  - intros p w0 t Ht.
    apply (callback_accepts q code state hex new_id (provider_tag p));
      [|apply provider_tag_nonempty].
    rewrite live_set_clock, oauth_login_stores.
    destruct (Z.ltb_spec (clock w0 + 600000) t); [lia|done].
Qed.

End OAuthStateProperties.

(** C4 (witness): a nonce from the Google login, presented twice, and
    presented late. *)
Lemma oauth_state_single_use_witness :
  let w1 := (oauth_login (H := demo_platform) Google "nonce" (demo_world 0)).2 in
  let first := oauth_callback (H := demo_platform) Google "code" "nonce" "hex" "id-1"
                 (set_clock 1000 w1) in
  1000 < 0 + 600000 ∧ 0 + 600000 < 700000 ∧
  outbound first.2 = [GoogleToken "code"] ∧
  oauth_state_key (redis first.2) !! "nonce" = None ∧
  (oauth_callback (H := demo_platform) Google "code" "nonce" "hex" "id-2"
     (set_clock 2000 first.2)).1 = Raise invalid_oauth_state ∧
  (oauth_callback (H := demo_platform) Google "code" "nonce" "hex" "id-1"
     (set_clock 700000 w1)).1 = Raise invalid_oauth_state.
Proof.
  intros w1 first.
  pose proof (oauth_state_single_use (H := demo_platform) Google Google Google "nonce"
                (demo_world 0) 1000 2000 700000 "code" "hex" "id-1" "code" "hex" "id-2"
                ltac:(simpl; lia) ltac:(simpl; lia)) as (_ & _ & Hgone & Hsecond & _ & _).
  pose proof (oauth_state_single_use (H := demo_platform) Google Google Google "nonce"
                (demo_world 0) 1000 2000 700000 "code" "hex" "id-1" "code" "hex" "id-1"
                ltac:(simpl; lia) ltac:(simpl; lia)) as (_ & _ & _ & _ & _ & Hlate).
  fold w1 in Hgone, Hsecond, Hlate. fold first in Hgone, Hsecond.
  split; [lia|]. split; [lia|]. split; [vm_refl|]. split; [done|].
  split; [by rewrite Hsecond|by rewrite Hlate].
Defined.

(** C10 (witness): a nonce stored by the GitHub login is redeemed by the
    Google callback. *)
Lemma oauth_state_provider_not_compared_witness :
  let w := set_clock 1000
             (oauth_login (H := demo_platform) Github "nonce" (demo_world 0)).2 in
  oauth_state_key (redis w) !! "nonce" = Some ("github", 600000) ∧
  "github" ≠ "" ∧ clock w < 600000 ∧
  outbound (oauth_callback (H := demo_platform) Google "code" "nonce" "hex" "id-1" w).2
    = [GoogleToken "code"] ∧
  oauth_state_key
    (redis (oauth_callback (H := demo_platform) Google "code" "nonce" "hex" "id-1" w).2)
    !! "nonce" = None.
Proof.
  intros w.
  assert (Hstored : oauth_state_key (redis w) !! "nonce" = Some ("github", 600000))
    by vm_refl.
  assert (Hlive : clock w < 600000) by reflexivity.
  pose proof (oauth_state_provider_not_compared (H := demo_platform) Google "nonce"
                "github" 600000 w "code" "hex" "id-1" Hstored ltac:(done) Hlive)
    as (_ & Hgone & _ & _).
  split; [done|]. split; [done|]. split; [done|]. split; [vm_refl|done].
Defined.

(** ** GitHub email resolution *)

Section EmailResolution.
Context `{Platform}.

(** The loop stops at the first flagged entry. *)
Lemma primary_verified_email_first (emails : list item) :
  primary_verified_email emails =
  match first_flagged emails with
  | Some e => v ← getitem e "email"; value_lower v
  | None => Ok ""
  end.
Proof.
  unfold first_flagged.
  induction emails as [|[e|v] rest IH]; simpl; [done| |done].
  destruct (truthy (get e "primary") && truthy (get e "verified")); simpl; done.
Qed.

Lemma lower_nonempty (s : string) : s ≠ "" → String.eqb (lower s) "" = false.
Proof.
  intros Hs. destruct (String.eqb_spec (lower s) "") as [Hempty|]; [|done].
  by apply lower_empty in Hempty.
Qed.

(** C5: the three-stage fallback of the GitHub callback. For every list of
    emails and every profile as GitHub returns them (the entry flagged
    primary and verified carries a non-empty string as its email; the
    profile's email is a string or null, or is missing; the profile has an
    id), the resolution does not fail, and the resolved email is the one
    the specification describes: the lowercased email of the first list
    entry flagged both primary and verified, if there is one; otherwise the
    lowercased email of the profile, if it is non-empty; otherwise the
    placeholder [gh_<id>@github.noemail] built from the profile's id. *)
Theorem github_email_resolution (emails : list item) (profile : dict) (hex : string)
    (Hentry : ∀ e, first_flagged emails = Some e →
                ∃ s, e !! "email" = Some (VStr s) ∧ s ≠ "")
    (Hprofile : ∀ v, profile !! "email" = Some v → v = VNone ∨ ∃ s, v = VStr s)
    (Hid : is_Some (profile !! "id")) :
  github_resolve_email emails (JObject profile) hex
  = Ok (spec_resolve_email emails profile).
Proof.
  unfold github_resolve_email, spec_resolve_email.
  rewrite primary_verified_email_first.
  destruct (first_flagged emails) as [e|] eqn:Hfirst.
  - destruct (Hentry e eq_refl) as (s & Hs & Hne).
    unfold getitem, get. rewrite Hs. simpl.
    rewrite (lower_nonempty s Hne). simpl. by rewrite (lower_nonempty s Hne).
  - simpl. unfold get_or, getitem, get.
    destruct Hid as [id Hid]. rewrite Hid.
    destruct (profile !! "email") as [v|] eqn:Hv; simpl; [|done].
    destruct (Hprofile v eq_refl) as [->|[s ->]]; simpl; [done|].
    destruct (String.eqb_spec s "") as [->|Hne]; simpl.
    + done.
    + rewrite (lower_nonempty s Hne). simpl. by rewrite ?(lower_nonempty s Hne).
Qed.

End EmailResolution.

Lemma first_flagged_example : first_flagged [IObject entry_a; IObject entry_b] = Some entry_b.
Proof. vm_refl. Qed.

Lemma first_flagged_nil : first_flagged [] = None.
Proof. reflexivity. Qed.

(** C5 (witness): the three examples of the specification. *)
Lemma github_email_resolution_witness :
  github_resolve_email (H := demo_platform) [IObject entry_a; IObject entry_b]
    (JObject profile_without_email) "hex" = Ok "b@x.com" ∧
  github_resolve_email (H := demo_platform) [] (JObject profile_with_email) "hex"
    = Ok "c@x.com" ∧
  github_resolve_email (H := demo_platform) [] (JObject profile_null_email) "hex"
    = Ok "gh_7@github.noemail".
Proof.
  split; [|split].
  - etransitivity; [apply github_email_resolution|vm_refl].
    + intros e He. rewrite first_flagged_example in He. injection He as <-.
      exists "b@x.com". split; [vm_refl|discriminate].
    + intros v Hv. exfalso. revert Hv. vm_compute. discriminate.
    + exists (VInt 7). vm_refl.
  - etransitivity; [apply github_email_resolution|vm_refl].
    + intros e He. rewrite first_flagged_nil in He. discriminate.
    + intros v Hv. right. exists "c@x.com".
      assert (Hc : profile_with_email !! "email" = Some (VStr "c@x.com")) by vm_refl.
      rewrite Hc in Hv. by injection Hv as <-.
    + exists (VInt 7). vm_refl.
  - etransitivity; [apply github_email_resolution|vm_refl].
    + intros e He. rewrite first_flagged_nil in He. discriminate.
    + intros v Hv. left.
      assert (Hc : profile_null_email !! "email" = Some VNone) by vm_refl.
      rewrite Hc in Hv. by injection Hv as <-.
    + exists (VInt 7). vm_refl.
Defined.

(** ** Merge by email *)

Section MergeProperties.
Context `{Platform}.

(** [redis_set_user] with the record's own id and email writes the record
    and nothing else. *)
Lemma redis_set_user_same (uid email : string) (user' : dict) (w : World) :
  user' !! "email" = Some (VStr (lower email)) →
  email_to_id_key (redis w) !! lower email = Some uid →
  redis_set_user (VStr uid) user' w =
  (Ok (), mkWorld (mkRedis (<[uid := user']> (user_key (redis w)))
                           (email_to_id_key (redis w))
                           (oauth_state_key (redis w)) (users_all (redis w)))
                  (clock w) (provider w) (outbound w)).
Proof.
  intros Hem Hidx. rewrite (redis_set_user_run uid (lower email)) by done.
  rewrite lower_idem. by rewrite (insert_id _ _ _ Hidx).
Qed.

Lemma refreshed_lookup (user : dict) (avatar : value) (now k : string) :
  k ≠ "avatar_url" → k ≠ "updated_at" →
  <["updated_at" := VStr now]> (<["avatar_url" := avatar]> user) !! k = user !! k.
Proof. intros. by rewrite !lookup_insert_ne. Qed.

Lemma merge_frame_write (w : World) (uid : string) (user user' : dict) :
  user_key (redis w) !! uid = Some user →
  (∀ k, k ≠ "avatar_url" → k ≠ "updated_at" → user' !! k = user !! k) →
  merge_frame w
    (mkWorld (mkRedis (<[uid := user']> (user_key (redis w)))
                      (email_to_id_key (redis w))
                      (oauth_state_key (redis w)) (users_all (redis w)))
             (clock w) (provider w) (outbound w))
    uid user user'.
Proof.
  intros Hrec Hsame. repeat split; simpl; [|done].
  rewrite dom_insert_L. apply elem_of_dom_2 in Hrec.
  apply (anti_symm (⊆)); [|apply union_subseteq_r].
  apply union_subseteq. split; [by apply singleton_subseteq_l|done].
Qed.

(** C6 (amended): merge by email leaves everything but the avatar and the
    modification time alone. When the resolved email is that of an existing
    record, indexed under it, neither callback creates a record or touches
    the email index or the directory set, and the stored record keeps every
    field other than [avatar_url] and [updated_at] ([provider], [oauth_id],
    [password_hash], [user_id], [email], [created_at], and also [bio],
    [location] and [website]). The GitHub callback always stores the
    provider's avatar and the current time; the Google callback does so only
    when the provider's picture is non-empty and differs from the stored
    avatar, and otherwise writes nothing. *)
Theorem oauth_merge_frame (w : World) (email uid new_id : string) (user : dict)
    (oauth_id display_name avatar_url : value) (g : github_identity)
    (Hidx : email_to_id_key (redis w) !! lower email = Some uid)
    (Huid : uid ≠ "")
    (Hrec : user_key (redis w) !! uid = Some user)
    (Hid : user !! "user_id" = Some (VStr uid))
    (Hem : user !! "email" = Some (VStr (lower email)))
    (Hg : gi_email g = email) :
  let now := VStr (isoformat (clock w)) in
  let google := google_link_account email oauth_id display_name avatar_url new_id w in
  let github := github_link_account g new_id w in
  (∃ user', google.1 = Ok user' ∧ merge_frame w google.2 uid user user' ∧
     user' = (if truthy avatar_url && negb (py_eq (get user "avatar_url") avatar_url)
              then <["updated_at" := now]> (<["avatar_url" := avatar_url]> user)
              else user) ∧
     (truthy avatar_url && negb (py_eq (get user "avatar_url") avatar_url) = false →
      google.2 = w)) ∧
  (∃ user', github.1 = Ok user' ∧ merge_frame w github.2 uid user user' ∧
     user' = <["updated_at" := now]> (<["avatar_url" := gi_avatar_url g]> user)).
Proof.
  intros now google github.
  assert (Hfind : find_by_email (redis w) email = Some user).
  { unfold find_by_email. rewrite Hidx.
    destruct (String.eqb_spec uid ""); [done|]. done. }
  assert (Htruthy : dict_truthy (Some user) = true).
  { simpl. rewrite bool_decide_eq_false_2; [done|].
    intros ->. by rewrite lookup_empty in Hid. }
  split.
  - subst google. unfold google_link_account.
    rewrite run_bind, redis_get_user_by_email_run, Hfind, Htruthy. simpl.
    destruct (truthy avatar_url && negb (py_eq (get user "avatar_url") avatar_url))
      eqn:Hchanged.
    + rewrite run_bind. unfold gets at 1. simpl.
      rewrite run_bind. unfold lift at 1, getitem.
      rewrite !lookup_insert_ne by done. rewrite Hid. simpl.
      rewrite run_bind.
      rewrite (redis_set_user_same uid email);
        [|by rewrite !lookup_insert_ne|done].
      simpl. eexists. split; [done|]. split; [|done].
      apply merge_frame_write; [done|]. intros k ? ?. by apply refreshed_lookup.
    + simpl. exists user. split; [done|]. split; [|done].
      unfold merge_frame. by rewrite (insert_id _ _ _ Hrec).
  - subst github. unfold github_link_account. rewrite Hg.
    rewrite run_bind, redis_get_user_by_email_run, Hfind, Htruthy. simpl.
    rewrite run_bind. unfold gets at 1. simpl.
    rewrite run_bind. unfold lift at 1, getitem.
    rewrite !lookup_insert_ne by done. rewrite Hid. simpl.
    rewrite run_bind.
    rewrite (redis_set_user_same uid email);
      [|by rewrite !lookup_insert_ne|done].
    simpl. eexists. split; [done|]. split; [|done].
    apply merge_frame_write; [done|]. intros k ? ?. by apply refreshed_lookup.
Qed.

End MergeProperties.

Lemma merge_world_record : user_key (redis merge_world) !! "id-1" = Some merge_record.
Proof. vm_refl. Qed.

Lemma merge_world_index :
  email_to_id_key (redis merge_world) !! lower (Platform := demo_platform) "ann@x.com"
  = Some "id-1".
Proof. vm_refl. Qed.

(** C6 (witness): a GitHub login merged into Ann's email/password account. *)
Lemma oauth_merge_frame_witness :
  ∃ user',
    (github_link_account (H := demo_platform) merge_identity "id-2" merge_world).1
      = Ok user' ∧
    user' !! "avatar_url" = Some (VStr "https://avatars/7") ∧
    user' !! "bio" = Some (VStr "old bio") ∧
    user' !! "password_hash" = Some (VStr "$2b$12$pw") ∧
    user' !! "provider" = Some (VStr "email") ∧
    user' !! "oauth_id" = Some (VStr "").
Proof.
  pose proof (oauth_merge_frame (H := demo_platform) merge_world "ann@x.com" "id-1" "id-2"
                merge_record (VStr "g-7") (VStr "Ann") (VStr "") merge_identity
                merge_world_index ltac:(discriminate) merge_world_record
                eq_refl eq_refl eq_refl)
    as (_ & user' & Hrun & (_ & _ & _ & _ & Hsame) & Hupd).
  exists user'. split; [exact Hrun|].
  split; [subst user'; by rewrite lookup_insert_ne, lookup_insert_eq|].
  repeat split; rewrite Hsame by discriminate; reflexivity.
Defined.

(** C6 (counterexample): the GitHub profile carries a bio, a location and a
    website of its own, and after the merge the stored record still has the
    old ones; the Google merge, with no picture in the profile, writes
    nothing at all, not even [updated_at]. The fields listed are
    [avatar_url], [bio], [location], [website], [updated_at]. *)
Lemma github_merge_keeps_bio :
  let github := github_callback (H := demo_platform) "code" "nonce" "hex" "id-2"
                  merge_world in
  let google := google_callback (H := demo_platform) "code" "nonce" "id-2"
                  merge_world in
  json_get_or (resp_json (merge_provider (GithubUser "Bearer tok"))) "bio" VNone
    = Ok (VStr "new bio") ∧
  refreshed_fields merge_world "id-1"
    = Some [VStr ""; VStr "old bio"; VStr ""; VStr ""; VStr "5"] ∧
  redirect_of github.1 = Some ("http://localhost:8550/oauth_callback", "github") ∧
  refreshed_fields github.2 "id-1"
    = Some [VStr "https://avatars/7"; VStr "old bio"; VStr ""; VStr ""; VStr "9"] ∧
  redirect_of google.1 = Some ("http://localhost:8550/oauth_callback", "google") ∧
  refreshed_fields google.2 "id-1"
    = Some [VStr ""; VStr "old bio"; VStr ""; VStr ""; VStr "5"].
Proof. repeat split; vm_refl. Qed.

(** ** Provider failures *)

Section ProviderFailures.
Context `{Platform}.

(** A failed code exchange aborts the Google callback before any record is
    read or written. *)
Lemma google_exchange_failure (code new_id : string) (w : World) :
  resp_status_code (provider w (GoogleToken code)) ≠ 200 →
  (google_authenticated code new_id w).1
    = Raise (HTTPException 400 "Failed to exchange Google code" []) ∧
  accounts (google_authenticated code new_id w).2 = accounts w.
Proof.
  intros Hstatus. unfold google_authenticated, google_fetch_identity.
  rewrite !run_bind. unfold http at 1. simpl.
  destruct (Z.eqb_spec (resp_status_code (provider w (GoogleToken code))) 200);
    [done|]. unfold raise. simpl. split; reflexivity.
Qed.

(** A failed userinfo request aborts the Google callback in the same way. *)
Lemma google_userinfo_failure (code new_id : string) (w : World) (access_token : value) :
  resp_status_code (provider w (GoogleToken code)) = 200 →
  json_getitem (resp_json (provider w (GoogleToken code))) "access_token"
    = Ok access_token →
  resp_status_code (provider w (GoogleUserinfo ("Bearer " +:+ str access_token))) ≠ 200 →
  (google_authenticated code new_id w).1
    = Raise (HTTPException 400 "Failed to get Google user info" []) ∧
  accounts (google_authenticated code new_id w).2 = accounts w.
Proof.
  intros Hstatus Htoken Hinfo. unfold google_authenticated, google_fetch_identity.
  rewrite !run_bind. unfold http at 1. simpl. rewrite Hstatus. simpl.
  rewrite !run_bind. unfold lift at 1. rewrite Htoken. simpl.
  rewrite !run_bind. unfold http at 1. simpl.
  destruct (Z.eqb_spec
              (resp_status_code (provider w (GoogleUserinfo ("Bearer " +:+ str access_token))))
              200); [done|].
  unfold raise. simpl. split; reflexivity.
Qed.

(** A failed code exchange aborts the GitHub callback. *)
Lemma github_exchange_failure (code hex new_id : string) (w : World) :
  resp_status_code (provider w (GithubToken code)) ≠ 200 →
  (github_authenticated code hex new_id w).1
    = Raise (HTTPException 400 "Failed to exchange GitHub code" []) ∧
  accounts (github_authenticated code hex new_id w).2 = accounts w.
Proof.
  intros Hstatus. unfold github_authenticated, github_fetch_identity.
  rewrite !run_bind. unfold http at 1. simpl.
  destruct (Z.eqb_spec (resp_status_code (provider w (GithubToken code))) 200);
    [done|]. unfold raise. simpl. split; reflexivity.
Qed.

End ProviderFailures.

(** C7 (failing input): the GitHub callback when the profile request is
    answered with status 401. The callback does not abort: it redirects
    with a token, and a record has been created under a placeholder email
    built from the random hex string. *)
Theorem github_profile_failure_creates_account :
  let after := github_callback (H := demo_platform) "code" "nonce" "0a1b" "id-1"
                 refused_world in
  resp_status_code (provider refused_world (GithubUser "Bearer tok")) = 401 ∧
  user_key (redis refused_world) !! "id-1" = None ∧
  redirect_of after.1 = Some ("http://localhost:8550/oauth_callback", "github") ∧
  stored_email after.2 "id-1" = Some (VStr "gh_0a1b@github.noemail") ∧
  email_to_id_key (redis after.2) !! "gh_0a1b@github.noemail" = Some "id-1".
Proof. repeat split; vm_refl. Qed.

(** ** Response bodies never carry the password hash *)

Section Returns.
Context {A : Type}.

Lemma returns_ret (Q : A → Prop) (a : A) : Q a → returns Q (mret a).
Proof. by intros Ha w. Qed.

Lemma returns_raise (Q : A → Prop) (e : exn) : returns Q (raise e).
Proof. by intros w. Qed.

Lemma returns_bind {B} (P : B → Prop) (Q : A → Prop) (m : M B) (k : B → M A) :
  returns P m → (∀ b, P b → returns Q (k b)) → returns Q (m ≫= k).
Proof.
  intros Hm Hk w. rewrite run_bind. specialize (Hm w).
  destruct (m w) as [[b|e] w']; simpl in *; [|done].
  by apply Hk.
Qed.

Lemma returns_any {B} (Q : A → Prop) (m : M B) (k : B → M A) :
  (∀ b, returns Q (k b)) → returns Q (m ≫= k).
Proof.
  intros Hk. apply (returns_bind (λ _, True)); [|auto].
  intros w. by destruct (m w).1.
Qed.

End Returns.

Lemma without_password_hash_hides (d : dict) :
  has_key "password_hash" (without_password_hash d) = false.
Proof.
  unfold has_key, without_password_hash.
  rewrite (proj2 (map_lookup_filter_None _ d "password_hash")); [done|].
  right. intros v _ Hk. by apply Hk.
Qed.

Lemma public_user_view_hides (user : dict) :
  has_key "password_hash" (public_user_view user) = false.
Proof. reflexivity. Qed.

(** The search loop only ever appends public views. *)
Lemma search_loop_hides `{Platform} (r : Redis) (query : string) (ids : list string)
    (acc results : list dict) :
  existsb (has_key "password_hash") acc = false →
  search_loop r query ids acc = Ok results →
  existsb (has_key "password_hash") results = false.
Proof.
  revert acc. induction ids as [|uid ids IH]; intros acc Hacc; simpl.
  - by intros [= <-].
  - destruct (dict_truthy (user_key r !! uid)); [|by apply IH].
    destruct (searchable _) as [s|]; simpl; [|done].
    destruct (contains query s); [|by apply IH].
    apply IH. rewrite existsb_app, Hacc. simpl.
    by rewrite public_user_view_hides.
Qed.

Lemma exclude_self_hides (results kept : list dict) (current_user : dict) :
  existsb (has_key "password_hash") results = false →
  exclude_self results current_user = Ok kept →
  existsb (has_key "password_hash") kept = false.
Proof.
  revert kept. induction results as [|u rest IH]; intros kept; simpl.
  - by intros _ [= <-].
  - intros [Hu Hrest]%orb_false_elim.
    destruct (getitem u "user_id") as [a|]; simpl; [|done].
    destruct (getitem current_user "user_id") as [b|]; simpl; [|done].
    destruct (exclude_self rest current_user) as [r|]; simpl; [|done].
    intros [= <-]. specialize (IH r Hrest eq_refl).
    destruct (negb (py_eq a b)); simpl; [by rewrite Hu|done].
Qed.

Section ResponseProperties.
Context `{Platform}.

#[local] Abbreviation hides := (returns (λ r, exposes "password_hash" r = false)).

Lemma register_hides payload user_id salt : hides (register payload user_id salt).
Proof.
  unfold register. apply returns_any; intros existing.
  destruct (dict_truthy existing); [apply returns_raise|].
  do 5 (apply returns_any; intros ?). by apply returns_ret.
Qed.

Lemma login_hides username password : hides (login username password).
Proof.
  unfold login. do 2 (apply returns_any; intros ?).
  destruct (_ || _); [apply returns_raise|].
  do 5 (apply returns_any; intros ?).
  apply returns_any; intros [[uid name] email]. by apply returns_ret.
Qed.

Lemma get_my_profile_hides authorization : hides (get_my_profile authorization).
Proof.
  unfold get_my_profile. apply returns_any; intros current_user.
  apply returns_ret. apply without_password_hash_hides.
Qed.

Lemma update_my_profile_hides payload authorization :
  hides (update_my_profile payload authorization).
Proof.
  unfold update_my_profile. do 4 (apply returns_any; intros ?).
  apply returns_ret. apply without_password_hash_hides.
Qed.

Lemma get_user_profile_hides user_id authorization :
  hides (get_user_profile user_id authorization).
Proof.
  unfold get_user_profile. do 2 (apply returns_any; intros ?).
  destruct (negb _); [apply returns_raise|].
  apply returns_ret. apply public_user_view_hides.
Qed.

Lemma search_users_hides q authorization : hides (search_users q authorization).
Proof.
  unfold search_users. apply returns_any; intros current_user.
  destruct (_ <? _)%nat; [apply returns_raise|].
  apply (returns_bind (λ rs, existsb (has_key "password_hash") rs = false)).
  { intros w. unfold redis_search_users, lift. simpl.
    destruct (search_loop _ _ _ _) as [rs|] eqn:Hloop; [|done].
    eapply search_loop_hides; [|exact Hloop]. reflexivity. }
  intros rs Hrs.
  apply (returns_bind (λ rs, existsb (has_key "password_hash") rs = false)).
  { intros w. unfold lift. simpl.
    destruct (exclude_self rs current_user) as [kept|] eqn:Hkept; [|done].
    eapply exclude_self_hides; [exact Hrs|exact Hkept]. }
  intros kept Hkept. apply returns_ret. simpl. by rewrite Hkept.
Qed.

(** C8: [password_hash] is never part of a response body. In every world
    and for every input, whatever register, login, GET and PUT /users/me,
    GET /users/{id} and the search endpoint return has no field named
    [password_hash], at the top level or inside a search result; an error
    response carries only its fixed detail text. *)
Theorem password_hash_never_serialized (w : World) :
  (∀ payload user_id salt, hides_password_hash (register payload user_id salt w).1) ∧
  (∀ username password, hides_password_hash (login username password w).1) ∧
  (∀ authorization, hides_password_hash (get_my_profile authorization w).1) ∧
  (∀ payload authorization,
     hides_password_hash (update_my_profile payload authorization w).1) ∧
  (∀ user_id authorization,
     hides_password_hash (get_user_profile user_id authorization w).1) ∧
  (∀ q authorization, hides_password_hash (search_users q authorization w).1).
Proof.
  repeat split; intros.
  - apply register_hides.
  - apply login_hides.
  - apply get_my_profile_hides.
  - apply update_my_profile_hides.
  - apply get_user_profile_hides.
  - apply search_users_hides.
Qed.

End ResponseProperties.

(** C8 (witness): Ann reads her own profile; the stored record has a
    password hash, the response body has none. *)
Lemma password_hash_never_serialized_witness :
  let authorization :=
    Some ("Bearer", create_access_token (H := demo_platform)
                      {["sub" := VStr "id-1"]} None 5) in
  (get_my_profile (H := demo_platform) authorization ann_world).1
    = Ok (Profile (without_password_hash ann_record)) ∧
  has_key "password_hash" ann_record = true ∧
  has_key "email" (without_password_hash ann_record) = true ∧
  has_key "password_hash" (without_password_hash ann_record) = false.
Proof.
  intros authorization.
  assert (Hrun : (get_my_profile (H := demo_platform) authorization ann_world).1
                 = Ok (Profile (without_password_hash ann_record))) by vm_refl.
  pose proof (password_hash_never_serialized (H := demo_platform) ann_world)
    as (_ & _ & Hme & _).
  specialize (Hme authorization). rewrite Hrun in Hme.
  split; [exact Hrun|]. split; [vm_refl|]. split; [vm_refl|exact Hme].
Defined.

(** ** The store invariant of the reachable worlds *)

Section GuardRun.
Context `{Platform}.

(** The session guard, step by step. *)
Lemma get_current_user_run (authorization : option (string * token)) (w : World) :
  get_current_user authorization w =
  match oauth2_scheme authorization with
  | Raise e => (Raise e, w)
  | Ok t =>
      match verify_token t (clock w) with
      | Raise e => (Raise e, w)
      | Ok v =>
          if truthy v then
            match user_key (redis w) !! str v with
            | Some d => if bool_decide (d = ∅) then (Raise user_not_found, w) else (Ok d, w)
            | None => (Raise user_not_found, w)
            end
          else (Raise unauthorized, w)
      end
  end.
Proof.
  unfold get_current_user. rewrite run_bind. unfold lift at 1.
  destruct (oauth2_scheme authorization) as [t|e]; [|done].
  rewrite run_bind. unfold lift at 1.
  destruct (verify_token t (clock w)) as [v|e]; [|done].
  destruct (truthy v); simpl; [|done].
  rewrite run_bind. unfold redis_get_user, gets. simpl.
  destruct (user_key (redis w) !! str v) as [d|]; simpl; [|done].
  by case_bool_decide.
Qed.

(** The guard never writes, and what it returns is a stored record. *)
Lemma get_current_user_world (authorization : option (string * token)) (w : World) :
  (get_current_user authorization w).2 = w.
Proof. rewrite get_current_user_run. repeat case_match; done. Qed.

Lemma get_current_user_ok (authorization : option (string * token)) (w : World)
    (d : dict) :
  (get_current_user authorization w).1 = Ok d →
  ∃ uid, user_key (redis w) !! uid = Some d.
Proof.
  rewrite get_current_user_run.
  destruct (oauth2_scheme authorization) as [t|e]; [|done].
  destruct (verify_token t (clock w)) as [v|e]; [|done].
  destruct (truthy v); [|done].
  destruct (user_key (redis w) !! str v) as [d'|] eqn:Hd; [|done].
  case_bool_decide; [done|]. intros [= <-]. by exists (str v).
Qed.

End GuardRun.

Section StoreInvariant.
Context `{Platform}.

Lemma store_consistent_empty : store_consistent empty_redis.
Proof. split; [|split]; simpl; intros *; by rewrite lookup_empty. Qed.

(** The invariant reads the records and the email index only. *)
Lemma store_consistent_accounts (w w' : World) :
  accounts w' = accounts w →
  store_consistent (redis w) → store_consistent (redis w').
Proof. unfold accounts, store_consistent. by intros [= -> -> _]. Qed.

(** In a consistent store, an email that finds no record has no entry in
    the index. *)
Lemma store_consistent_find_none (r : Redis) (email : string) :
  store_consistent r → dict_truthy (find_by_email r email) = false →
  email_to_id_key r !! lower email = None.
Proof.
  intros (Hids & _ & Hidx). unfold find_by_email.
  destruct (email_to_id_key r !! lower email) as [uid|] eqn:Hentry; [|done].
  destruct (Hidx _ _ Hentry) as (d & e & Hd & He & _).
  destruct (String.eqb_spec uid "") as [Heq|_]; [by destruct (Hids _ _ Hentry)|].
  rewrite Hd. simpl. case_bool_decide as Hempty; [|done].
  subst d. by rewrite lookup_empty in He.
Qed.

(** An email with an entry in the index finds the record the entry points
    to, and that record carries the email. *)
Lemma store_consistent_find (r : Redis) (email uid : string) :
  store_consistent r → email_to_id_key r !! lower email = Some uid →
  ∃ d e, find_by_email r email = Some d ∧ d ≠ ∅ ∧ user_key r !! uid = Some d ∧
         d !! "email" = Some (VStr e) ∧ lower e = lower email.
Proof.
  intros (Hids & _ & Hidx) Hentry. unfold find_by_email. rewrite Hentry.
  destruct (Hidx _ _ Hentry) as (d & e & Hd & He & Hlow).
  destruct (String.eqb_spec uid "") as [Heq|_]; [by destruct (Hids _ _ Hentry)|].
  exists d, e. repeat split; [done| |done|done|done].
  intros ->. by rewrite lookup_empty in He.
Qed.

(** Creating a record under a fresh id and an email that finds no record. *)
Lemma store_consistent_create (r : Redis) (e new_id : string) (data : dict)
    (states : gmap string (string * Z)) (all : gset string) :
  store_consistent r → new_id ≠ "" → user_key r !! new_id = None →
  dict_truthy (find_by_email r e) = false →
  data !! "user_id" = Some (VStr new_id) → data !! "email" = Some (VStr e) →
  store_consistent (mkRedis (<[new_id := data]> (user_key r))
                            (<[lower e := new_id]> (email_to_id_key r)) states all).
Proof.
  intros Hr Hne Hfresh Hfind Hid Hem.
  pose proof (store_consistent_find_none r e Hr Hfind) as Hnone.
  destruct Hr as (Hids & Hrec & Hidx). split; [|split]; simpl.
  - intros k uid. rewrite lookup_insert. case_decide; [congruence|]. apply Hids.
  - intros uid d. rewrite lookup_insert. case_decide as Huid.
    + intros ?. simplify_eq. split; [done|]. exists e. by rewrite lookup_insert_eq.
    + intros Hd. destruct (Hrec _ _ Hd) as (Hid' & e' & He' & Hentry).
      split; [done|]. exists e'. split; [done|]. rewrite lookup_insert_ne; [done|].
      intros Heq. rewrite <- Heq in Hentry. congruence.
  - intros k uid. rewrite lookup_insert. case_decide as Hk.
    + intros ?. simplify_eq. exists data, e. by rewrite lookup_insert_eq.
    + intros Hentry. destruct (Hidx _ _ Hentry) as (d & e' & Hd & He' & Hlow).
      exists d, e'. split; [|done]. rewrite lookup_insert_ne; [done|]. congruence.
Qed.

(** Rewriting a record without touching its id and email. *)
Lemma store_consistent_rewrite (r : Redis) (uid : string) (d d' : dict)
    (states : gmap string (string * Z)) (all : gset string) :
  store_consistent r → user_key r !! uid = Some d →
  d' !! "user_id" = d !! "user_id" → d' !! "email" = d !! "email" →
  store_consistent (mkRedis (<[uid := d']> (user_key r)) (email_to_id_key r) states all).
Proof.
  intros (Hids & Hrec & Hidx) Hd Hid Hem. split; [|split]; simpl.
  - done.
  - intros uid' d0. rewrite lookup_insert. case_decide as Huid.
    + intros ?. simplify_eq. rewrite Hid, Hem. by apply Hrec.
    + apply Hrec.
  - intros k u Hentry. destruct (Hidx _ _ Hentry) as (d0 & e & Hd0 & He & Hlow).
    rewrite lookup_insert. case_decide as Huid.
    + simplify_eq. exists d', e. by rewrite Hem.
    + by exists d0, e.
Qed.

(** Removing a record together with the index entry of its email. *)
Lemma store_consistent_remove (r : Redis) (uid e : string) (d : dict)
    (states : gmap string (string * Z)) (all : gset string) :
  store_consistent r → user_key r !! uid = Some d → d !! "email" = Some (VStr e) →
  store_consistent (mkRedis (delete uid (user_key r))
                            (delete (lower e) (email_to_id_key r)) states all).
Proof.
  intros (Hids & Hrec & Hidx) Hd He.
  assert (Hentry : email_to_id_key r !! lower e = Some uid).
  { destruct (Hrec _ _ Hd) as (_ & e' & He' & Hentry). congruence. }
  split; [|split]; simpl.
  - intros k u. rewrite lookup_delete. case_decide; [done|]. apply Hids.
  - intros uid' d0. rewrite lookup_delete. case_decide as Huid; [done|].
    intros Hd0. destruct (Hrec _ _ Hd0) as (Hid' & e' & He' & Hentry').
    split; [done|]. exists e'. split; [done|]. rewrite lookup_delete_ne; [done|].
    intros Heq. rewrite <- Heq in Hentry'. congruence.
  - intros k u. rewrite lookup_delete. case_decide as Hk; [done|].
    intros Hentry0. destruct (Hidx _ _ Hentry0) as (d0 & e0 & Hd0 & He0 & Hlow).
    exists d0, e0. split; [|done]. rewrite lookup_delete_ne; [done|].
    intros <-. by simplify_eq.
Qed.

End StoreInvariant.

Section Preservation.
Context `{Platform}.

Lemma leads_bind {A B} (P Q R : World → Prop) (m : M A) (k : A → M B) :
  leads P Q m → (∀ a, leads Q R (k a)) → (∀ w, Q w → R w) → leads P R (m ≫= k).
Proof.
  intros Hm Hk HQR w Hw. rewrite run_bind. specialize (Hm w Hw).
  destruct (m w) as [[a|e] w']; simpl in *; [by apply Hk|by apply HQR].
Qed.

Lemma leads_keeps {A X} (f : World → X) (P : World → Prop) (m : M A) :
  keeps f m → (∀ w w', f w' = f w → P w → P w') → leads P P m.
Proof. intros Hm HP w Hw. by apply (HP w), Hw. Qed.

Lemma consistent_accounts (w w' : World) :
  accounts w' = accounts w → consistent w → consistent w'.
Proof. apply store_consistent_accounts. Qed.

Lemma fresh_id_accounts (new_id : string) (w w' : World) :
  accounts w' = accounts w → fresh_id new_id w → fresh_id new_id w'.
Proof. unfold accounts, fresh_id. by intros [= -> _ _]. Qed.

Lemma keeps_get_current_user {X} (f : World → X)
    (authorization : option (string * token)) :
  keeps f (get_current_user authorization).
Proof. intros w. by rewrite get_current_user_world. Qed.

(** [redis_set_user] on a record whose email the index already maps to its
    id writes the record and nothing else. *)
Lemma redis_set_user_indexed (uid e : string) (d : dict) (w : World) :
  d !! "email" = Some (VStr e) →
  email_to_id_key (redis w) !! lower e = Some uid →
  redis_set_user (VStr uid) d w =
  (Ok (), mkWorld (mkRedis (<[uid := d]> (user_key (redis w)))
                           (email_to_id_key (redis w))
                           (oauth_state_key (redis w)) (users_all (redis w)))
                  (clock w) (provider w) (outbound w)).
Proof.
  intros He Hidx. rewrite (redis_set_user_run uid e) by done.
  by rewrite (insert_id _ _ _ Hidx).
Qed.

(** [redis_delete_user] on the id of a stored record. *)
Lemma redis_delete_user_run (uid e : string) (d : dict) (w : World) :
  user_key (redis w) !! uid = Some d → d !! "email" = Some (VStr e) →
  redis_delete_user (VStr uid) w =
  (Ok (), mkWorld (mkRedis (delete uid (user_key (redis w)))
                           (delete (lower e) (email_to_id_key (redis w)))
                           (oauth_state_key (redis w))
                           (users_all (redis w) ∖ {[uid]}))
                  (clock w) (provider w) (outbound w)).
Proof.
  intros Hd He. unfold redis_delete_user. rewrite run_bind.
  unfold redis_get_user, gets. simpl. rewrite Hd. simpl.
  rewrite bool_decide_eq_false_2 by (intros ->; by rewrite lookup_empty in He).
  simpl. rewrite !run_bind. unfold lift, getitem. rewrite He. done.
Qed.

(** What [redis_get_user_by_email] finds is a stored record. *)
Lemma find_by_email_stored (r : Redis) (email : string) (d : dict) :
  find_by_email r email = Some d → ∃ uid, user_key r !! uid = Some d.
Proof.
  unfold find_by_email. destruct (email_to_id_key r !! lower email) as [uid|]; [|done].
  destruct (String.eqb uid ""); [done|]. by exists uid.
Qed.

(** Rewriting a stored record through [redis_set_user], with its id read
    from the record. *)
Lemma rewrite_consistent (w : World) (uid : string) (d d' : dict) :
  consistent w → user_key (redis w) !! uid = Some d →
  d' !! "user_id" = d !! "user_id" → d' !! "email" = d !! "email" →
  getitem d' "user_id" = Ok (VStr uid) ∧
  consistent (redis_set_user (VStr uid) d' w).2.
Proof.
  intros Hw Hd Hid Hem.
  destruct Hw as (Hids & Hrec & Hidx).
  destruct (Hrec _ _ Hd) as (Huid & e & He & Hentry).
  split; [unfold getitem; by rewrite Hid, Huid|].
  rewrite (redis_set_user_indexed uid e) by (by rewrite ?Hem).
  by apply (store_consistent_rewrite _ uid d).
Qed.

Lemma create_consistent (w : World) (e new_id : string) (data : dict) :
  consistent w → fresh_id new_id w →
  dict_truthy (find_by_email (redis w) e) = false →
  data !! "user_id" = Some (VStr new_id) → data !! "email" = Some (VStr e) →
  consistent ((redis_set_user (VStr new_id) data ≫= λ _, redis_add_to_index new_id) w).2.
Proof.
  intros Hw [Hne Hfresh] Hfind Hid Hem.
  rewrite run_bind, (redis_set_user_run new_id e) by done. simpl.
  by apply store_consistent_create.
Qed.

Lemma google_link_account_consistent (email : string)
    (oauth_id display_name avatar_url : value) (new_id : string) :
  leads (λ w, consistent w ∧ fresh_id new_id w) consistent
    (google_link_account email oauth_id display_name avatar_url new_id).
Proof.
  intros w [Hw Hfresh]. unfold google_link_account.
  rewrite run_bind, redis_get_user_by_email_run. simpl.
  destruct (find_by_email (redis w) email) as [user|] eqn:Hfind; simpl.
  - case_bool_decide as Hempty; simpl.
    + rewrite run_bind. unfold gets at 1. simpl.
      rewrite run_bind.
      pose proof (create_consistent w email new_id
                    (new_user (VStr new_id) (VStr email) (VStr "") display_name
                       (VStr "") (VStr "") avatar_url (VStr "") (VStr "")
                       (VStr "google") oauth_id (VStr (isoformat (clock w))))
                    Hw Hfresh) as Hcreate.
      rewrite Hfind in Hcreate. simpl in Hcreate.
      rewrite bool_decide_eq_true_2 in Hcreate by done.
      specialize (Hcreate eq_refl eq_refl eq_refl).
      rewrite run_bind in Hcreate.
      destruct (redis_set_user _ _ w) as [[[]|e] w']; simpl in *; done.
    + destruct (find_by_email_stored _ _ _ Hfind) as [uid Hd].
      destruct (truthy avatar_url && negb (py_eq (get user "avatar_url") avatar_url));
        [|done].
      rewrite run_bind. unfold gets at 1. simpl.
      destruct (rewrite_consistent w uid user
                  (<["updated_at" := VStr (isoformat (clock w))]>
                     (<["avatar_url" := avatar_url]> user)) Hw Hd)
        as [Hget Hset]; [by rewrite !lookup_insert_ne..|].
      rewrite run_bind. unfold lift at 1. rewrite Hget. simpl.
      rewrite run_bind.
      destruct (redis_set_user _ _ w) as [[[]|e] w']; simpl in *; done.
  - rewrite run_bind. unfold gets at 1. simpl.
    rewrite run_bind.
    pose proof (create_consistent w email new_id
                  (new_user (VStr new_id) (VStr email) (VStr "") display_name
                     (VStr "") (VStr "") avatar_url (VStr "") (VStr "")
                     (VStr "google") oauth_id (VStr (isoformat (clock w))))
                  Hw Hfresh) as Hcreate.
    rewrite Hfind in Hcreate. specialize (Hcreate eq_refl eq_refl eq_refl).
    rewrite run_bind in Hcreate.
    destruct (redis_set_user _ _ w) as [[[]|e] w']; simpl in *; done.
Qed.

Lemma github_link_account_consistent (g : github_identity) (new_id : string) :
  leads (λ w, consistent w ∧ fresh_id new_id w) consistent
    (github_link_account g new_id).
Proof.
  intros w [Hw Hfresh]. unfold github_link_account.
  rewrite run_bind, redis_get_user_by_email_run. simpl.
  pose proof (create_consistent w (gi_email g) new_id
                (new_user (VStr new_id) (VStr (gi_email g)) (VStr "") (gi_display_name g)
                   (gi_bio g) (VStr "") (gi_avatar_url g) (gi_location g) (gi_website g)
                   (VStr "github") (gi_oauth_id g) (VStr (isoformat (clock w))))
                Hw Hfresh) as Hcreate.
  destruct (find_by_email (redis w) (gi_email g)) as [user|] eqn:Hfind; simpl.
  - case_bool_decide as Hempty; simpl.
    + rewrite run_bind. unfold gets at 1. simpl.
      rewrite run_bind. simpl in Hcreate.
      rewrite bool_decide_eq_true_2 in Hcreate by done.
      specialize (Hcreate eq_refl eq_refl eq_refl).
      rewrite run_bind in Hcreate.
      destruct (redis_set_user _ _ w) as [[[]|e] w']; simpl in *; done.
    + destruct (find_by_email_stored _ _ _ Hfind) as [uid Hd].
      rewrite run_bind. unfold gets at 1. simpl.
      destruct (rewrite_consistent w uid user
                  (<["updated_at" := VStr (isoformat (clock w))]>
                     (<["avatar_url" := gi_avatar_url g]> user)) Hw Hd)
        as [Hget Hset]; [by rewrite !lookup_insert_ne..|].
      rewrite run_bind. unfold lift at 1. rewrite Hget. simpl.
      rewrite run_bind.
      destruct (redis_set_user _ _ w) as [[[]|e] w']; simpl in *; done.
  - rewrite run_bind. unfold gets at 1. simpl.
    rewrite run_bind. specialize (Hcreate eq_refl eq_refl eq_refl).
    rewrite run_bind in Hcreate.
    destruct (redis_set_user _ _ w) as [[[]|e] w']; simpl in *; done.
Qed.

(** Once the identity is linked, a callback only issues the token. *)
Lemma oauth_authenticated_consistent (p : oauth_provider) (code hex new_id : string) :
  leads (λ w, consistent w ∧ fresh_id new_id w) consistent
    (oauth_authenticated p code hex new_id).
Proof.
  assert (Hkeep : ∀ w w' : World, accounts w' = accounts w →
            consistent w ∧ fresh_id new_id w → consistent w' ∧ fresh_id new_id w').
  { intros w w' Hacc [Hw Hfresh].
    split; [by apply (consistent_accounts w)|by apply (fresh_id_accounts _ w)]. }
  destruct p; simpl.
  - unfold google_authenticated.
    apply (leads_bind _ (λ w, consistent w ∧ fresh_id new_id w)); [| |by intros w [? _]].
    { apply (leads_keeps accounts); [apply keeps_accounts_google_fetch_identity|done]. }
    intros [[[email oauth_id] display_name] avatar_url].
    apply (leads_bind _ consistent); [apply google_link_account_consistent| |done].
    intros user. apply (leads_keeps accounts); [frame|apply consistent_accounts].
  - unfold github_authenticated.
    apply (leads_bind _ (λ w, consistent w ∧ fresh_id new_id w)); [| |by intros w [? _]].
    { apply (leads_keeps accounts); [apply keeps_accounts_github_fetch_identity|done]. }
    intros g.
    apply (leads_bind _ consistent); [apply github_link_account_consistent| |done].
    intros user. apply (leads_keeps accounts); [frame|apply consistent_accounts].
Qed.

Lemma oauth_callback_consistent (p : oauth_provider) (code state hex new_id : string) :
  leads (λ w, consistent w ∧ fresh_id new_id w) consistent
    (oauth_callback p code state hex new_id).
Proof.
  intros w [Hw Hfresh]. rewrite oauth_callback_run.
  destruct (str_truthy _); [|done].
  apply oauth_authenticated_consistent.
  split; [by apply (consistent_accounts w)|by apply (fresh_id_accounts _ w)].
Qed.

Lemma register_consistent (payload : UserCreate) (new_id salt : string) :
  leads (λ w, consistent w ∧ fresh_id new_id w) consistent
    (register payload new_id salt).
Proof.
  intros w [Hw [Hne Hfresh]].
  destruct (register_cases w payload new_id salt) as [[e ->]|(hashed & Hfind & _ & ->)];
    [done|].
  unfold consistent. simpl.
  rewrite <- (lower_idem (uc_email payload)) at 2.
  apply store_consistent_create; [done..| |done|done].
  unfold find_by_email in *. by rewrite lower_idem.
Qed.

Lemma set_if_lookup_ne (k k' : string) (f : option string) (d : dict) :
  k ≠ k' → set_if k f d !! k' = d !! k'.
Proof. intros Hne. destruct f; simpl; [by rewrite lookup_insert_ne|done]. Qed.

Lemma update_my_profile_consistent (payload : UserUpdate)
    (authorization : option (string * token)) :
  leads consistent consistent (update_my_profile payload authorization).
Proof.
  intros w Hw. unfold update_my_profile. rewrite run_bind.
  pose proof (get_current_user_world authorization w) as Hsame.
  pose proof (get_current_user_ok authorization w) as Hok.
  destruct (get_current_user authorization w) as [[d|e] w']; simpl in *; subst w';
    [|done].
  destruct (Hok d eq_refl) as [uid Hd].
  rewrite run_bind. unfold gets at 1. simpl.
  match goal with
  | |- context [redis_set_user _ ?d'] =>
      destruct (rewrite_consistent w uid d d' Hw Hd) as [Hget Hset];
        [by rewrite lookup_insert_ne, !set_if_lookup_ne..|]
  end.
  assert (Hid : getitem d "user_id" = Ok (VStr uid)).
  { revert Hget. unfold getitem. by rewrite lookup_insert_ne, !set_if_lookup_ne. }
  rewrite run_bind. unfold lift at 1. rewrite Hid. simpl.
  rewrite run_bind.
  destruct (redis_set_user _ _ w) as [[[]|e] w']; simpl in *; done.
Qed.

Lemma delete_my_account_consistent (authorization : option (string * token)) :
  leads consistent consistent (delete_my_account authorization).
Proof.
  intros w Hw. unfold delete_my_account. rewrite run_bind.
  pose proof (get_current_user_world authorization w) as Hsame.
  pose proof (get_current_user_ok authorization w) as Hok.
  destruct (get_current_user authorization w) as [[d|e] w']; simpl in *; subst w';
    [|done].
  destruct (Hok d eq_refl) as [uid Hd].
  destruct Hw as (Hids & Hrec & Hidx).
  destruct (Hrec _ _ Hd) as (Huid & e & He & Hentry).
  rewrite run_bind. unfold lift at 1, getitem. rewrite Huid. simpl.
  rewrite run_bind, (redis_delete_user_run uid e d) by done. simpl.
  by apply (store_consistent_remove _ uid e d).
Qed.

(** Every handler maintains the invariant. *)
Lemma handle_consistent (c : call) (w : World) :
  consistent w → fresh_ids c w → consistent (handle c w).2.
Proof.
  intros Hw Hfresh.
  assert (Hread : ∀ m : M response, keeps accounts m → consistent (m w).2).
  { intros m Hm. by apply (consistent_accounts w). }
  destruct c; cbn [handle fresh_ids] in *.
  - by apply register_consistent.
  - apply Hread. unfold login. frame.
  - apply Hread. unfold google_login. frame.
  - by apply (oauth_callback_consistent Google code state "" new_id).
  - apply Hread. unfold github_login. frame.
  - by apply (oauth_callback_consistent Github code state hex new_id).
  - apply Hread. unfold get_my_profile.
    apply keeps_bind; [apply keeps_get_current_user|intros current_user]. frame.
  - by apply update_my_profile_consistent.
  - by apply delete_my_account_consistent.
  - apply Hread. unfold get_user_profile.
    apply keeps_bind; [apply keeps_get_current_user|intros current_user]. frame.
  - apply Hread. unfold search_users.
    apply keeps_bind; [apply keeps_get_current_user|intros current_user]. frame.
  - done.
Qed.

Lemma reachable_consistent (w : World) : reachable w → consistent w.
Proof.
  induction 1 as [now answers|w now answers _ IH|w c _ IH Hfresh].
  - apply store_consistent_empty.
  - exact IH.
  - by apply handle_consistent.
Qed.

End Preservation.

(** ** Registering an email twice *)

Section RegisterProperties.
Context `{Platform}.

(** C3: a second registration with an email that is already taken. In
    every world the backend can reach, if the email index has an entry for
    the lowercase form of an email, then a registration with that email, in
    any casing, fails with 400 "Email already registered" and leaves the
    whole world as it was: no record is created and the email index is
    unchanged; afterwards the record the index points to carries that email,
    and it is the only record that does. *)
Theorem register_email_taken (w : World) (payload : UserCreate)
    (email uid new_id salt : string)
    (Hreach : reachable w)
    (Hcase : lower (uc_email payload) = lower email)
    (Hidx : email_to_id_key (redis w) !! lower email = Some uid) :
  let '(result, w') := register payload new_id salt w in
  result = Raise email_taken ∧
  w' = w ∧
  user_key (redis w') = user_key (redis w) ∧
  email_to_id_key (redis w') = email_to_id_key (redis w) ∧
  carries_email (redis w') email uid ∧
  (∀ uid', carries_email (redis w') email uid' → uid' = uid).
Proof.
  pose proof (reachable_consistent w Hreach) as Hw.
  destruct (store_consistent_find (redis w) email uid Hw Hidx)
    as (d & e & Hfind & Hne & Hd & He & Hlow).
  assert (Hfound : find_by_email (redis w) (uc_email payload) = Some d).
  { unfold find_by_email in *. by rewrite Hcase. }
  unfold register. rewrite run_bind, redis_get_user_by_email_run, Hfound. simpl.
  rewrite bool_decide_eq_false_2 by done. simpl.
  split; [done|]. split; [done|]. split; [done|]. split; [done|]. split.
  - by exists d, e.
  - intros uid' (d' & e' & Hd' & He' & Hlow').
    destruct Hw as (_ & Hrec & _).
    destruct (Hrec _ _ Hd') as (_ & e'' & He'' & Hentry).
    rewrite He' in He''. injection He'' as <-.
    rewrite Hlow' in Hentry. congruence.
Qed.

End RegisterProperties.

Lemma ann_world_reachable : reachable (H := demo_platform) ann_world.
Proof.
  apply (reachable_call (H := demo_platform) (demo_world 5)
           (Register (mkUserCreate "Ann@X.com" "pw" "Ann" None None)
              "id-1" "$2b$12$saltsalt")); [apply reachable_start|].
  split; [discriminate|reflexivity].
Qed.

(** C3 (witness): Ann is registered, and registers again with another
    casing of the same email. *)
Lemma register_email_taken_witness :
  register (H := demo_platform) (mkUserCreate "ANN@x.com" "other" "Ann2" None None)
    "id-2" "$2b$12$saltsalt" ann_world
  = (Raise email_taken, ann_world).
Proof.
  pose proof (register_email_taken (H := demo_platform) ann_world
                (mkUserCreate "ANN@x.com" "other" "Ann2" None None)
                "ann@x.com" "id-1" "id-2" "$2b$12$saltsalt"
                ann_world_reachable eq_refl ann_world_index) as Htaken.
  destruct (register _ _ _ _) as [result w'].
  destruct Htaken as (-> & -> & _). reflexivity.
Defined.
